(** * fix-links.py: absolute internal markdown links made relative

    A shallow embedding of [fix-links.py] (maveniverse/domtrip) and the
    properties of its link rewriter.

    Text is a list of characters.  The characters the script looks at
    ([[], []], [(], [)], [/] and the letters of the external prefixes) are
    all ASCII, so a file's text is held as the sequence of its UTF-8 bytes:
    no byte of a multi-byte character equals an ASCII character, hence
    Python's code-point-wise [re] and [str.lstrip] cut the text at the same
    places as the byte-wise functions below. *)

From Stdlib Require Import String Ascii List Bool Arith Lia.
Import ListNotations.
Open Scope list_scope.
Open Scope char_scope.

Set Implicit Arguments.

(** ** Text *)

Definition text := list ascii.

(** [str "..."] is the text of a literal. *)
Definition str (s : string) : text := list_ascii_of_string s.

(** [s.startswith(p)] *)
Fixpoint startswith (p s : text) : bool :=
  match p, s with
  | [], _ => true
  | a :: p', b :: s' => Ascii.eqb a b && startswith p' s'
  | _ :: _, [] => false
  end.

(** [s.lstrip(c)]: every leading [c] is dropped. *)
Fixpoint lstrip (c : ascii) (s : text) : text :=
  match s with
  | x :: s' => if Ascii.eqb x c then lstrip c s' else s
  | [] => []
  end.

(** [unit * n] on strings. *)
Fixpoint repeat_text (unit : text) (n : nat) : text :=
  match n with
  | O => []
  | S n' => unit ++ repeat_text unit n'
  end.

(** ** A small backtracking matcher for the fragment of [re] the script uses

    A pattern is a sequence of elements; an element is one character test,
    taken once or one-or-more times (greedy), and may lie in a capture
    group. *)

Module Re.

Inductive atom :=
| Chr (c : ascii)       (* the character c, escaped or not *)
| NotChr (c : ascii).   (* the class [^c] *)

Inductive quant := Once | Plus.

Record elem := El { el_atom : atom; el_quant : quant; el_group : option nat }.

Definition pattern := list elem.

Definition test (a : atom) (x : ascii) : bool :=
  match a with
  | Chr c => Ascii.eqb x c
  | NotChr c => negb (Ascii.eqb x c)
  end.

(** Greedy [+]: take as many characters as possible, and give characters
    back one at a time while the rest of the pattern [k] fails. *)
Fixpoint plus_greedy (A : Type) (p : ascii -> bool) (k : text -> option A)
         (s : text) : option (text * A) :=
  match s with
  | [] => None
  | c :: s' =>
      if p c then
        match plus_greedy p k s' with
        | Some (m, r) => Some (c :: m, r)
        | None =>
            match k s' with
            | Some r => Some ([c], r)
            | None => None
            end
        end
      else None
  end.

(** [exec p s]: match [p] at the start of [s]; the characters taken by
    each element, and the rest of the text. *)
Fixpoint exec (p : pattern) (s : text) : option (list text * text) :=
  match p with
  | [] => Some ([], s)
  | e :: p' =>
      match el_quant e with
      | Once =>
          match s with
          | c :: s' =>
              if test (el_atom e) c then
                match exec p' s' with
                | Some (ms, r) => Some ([c] :: ms, r)
                | None => None
                end
              else None
          | [] => None
          end
      | Plus =>
          match plus_greedy (test (el_atom e)) (exec p') s with
          | Some (m, (ms, r)) => Some (m :: ms, r)
          | None => None
          end
      end
  end.

(** The text captured by group [g]. *)
Fixpoint group (g : nat) (p : pattern) (ms : list text) : text :=
  match p, ms with
  | e :: p', m :: ms' =>
      match el_group e with
      | Some g' => if Nat.eqb g g' then m ++ group g p' ms' else group g p' ms'
      | None => group g p' ms'
      end
  | _, _ => []
  end.

(** A match object: [group(0)], [group(1)], [group(2)]. *)
Record Match := { group0 : text; group1 : text; group2 : text }.

(** [pattern.match(s)] at the start of [s], with the text after the match. *)
Definition match_prefix (p : pattern) (s : text) : option (Match * text) :=
  match exec p s with
  | Some (ms, r) =>
      Some ({| group0 := concat ms; group1 := group 1 p ms; group2 := group 2 p ms |}, r)
  | None => None
  end.

(** What [finditer] walks over: the characters outside matches and the
    matches, leftmost first and not overlapping. *)
Inductive token := Lit (c : ascii) | Hit (m : Match).

Fixpoint scan_fuel (p : pattern) (fuel : nat) (s : text) : list token :=
  match fuel with
  | O => []
  | S fuel' =>
      match s with
      | [] => []
      | c :: s' =>
          match match_prefix p s with
          | Some (m, r) => Hit m :: scan_fuel p fuel' r
          | None => Lit c :: scan_fuel p fuel' s'
          end
      end
  end.

Definition scan (p : pattern) (s : text) : list token :=
  scan_fuel p (length s) s.

End Re.

(** ** The script's patterns *)

(** [re.compile(r'\[([^\]]+)\]\((/[^)]+)\)', re.IGNORECASE)]; the pattern has
    no letter, so IGNORECASE changes nothing. *)
Definition MARKDOWN_LINK_PATTERN : Re.pattern :=
  [ Re.El (Re.Chr "[") Re.Once None;
    Re.El (Re.NotChr "]") Re.Plus (Some 1);
    Re.El (Re.Chr "]") Re.Once None;
    Re.El (Re.Chr "(") Re.Once None;
    Re.El (Re.Chr "/") Re.Once (Some 2);
    Re.El (Re.NotChr ")") Re.Plus (Some 2);
    Re.El (Re.Chr ")") Re.Once None ].

(** ASCII lower case, for IGNORECASE. *)
Definition lower (c : ascii) : ascii :=
  let n := nat_of_ascii c in
  if ((65 <=? n)%nat && (n <=? 90)%nat)%bool then ascii_of_nat (n + 32) else c.

Fixpoint startswith_ci (p s : text) : bool :=
  match p, s with
  | [], _ => true
  | a :: p', b :: s' => Ascii.eqb (lower a) (lower b) && startswith_ci p' s'
  | _ :: _, [] => false
  end.

(** [EXTERNAL_LINK_PATTERN.match(url)] for
    [re.compile(r'^(https?://|mailto:|#)', re.IGNORECASE)], as a truth value.
    Letters are compared without case, as ASCII letters.  (Python also takes
    the characters U+017F and U+212A for [s] and [k]; they are multi-byte
    here and are not.  Either way such a URL does not start with a slash,
    and [replace_link] returns the match unchanged for it.) *)
Definition EXTERNAL_LINK_PATTERN_match (url : text) : bool :=
  startswith_ci (str "http://") url
  || startswith_ci (str "https://") url
  || startswith_ci (str "mailto:") url
  || startswith_ci (str "#") url.

(** ** Paths

    A [pathlib.Path] is held as its [parts]; all the script's paths are
    relative ones. *)

Definition Path := list string.

(** [Path("website/content")] *)
Definition content_root : Path := ["website"%string; "content"%string].

(** [p.parent] *)
Definition parent (p : Path) : Path := removelast p.

(** ** Exceptions, results *)

Inductive exn :=
| FileNotFoundError
| IsADirectoryError
| PermissionError
| UnicodeDecodeError
| ValueError
| SystemExit (code : nat).

(** [except Exception] catches everything the script can raise, except
    [SystemExit]. *)
Definition is_Exception (e : exn) : bool :=
  match e with
  | SystemExit _ => false
  | _ => true
  end.

(** [inl e]: [e] was raised; [inr v]: [v] was returned. *)
Definition result (A : Type) := (exn + A)%type.

(** [p.relative_to(other)]: the parts of [p] after those of [other], or
    [ValueError] when [p] does not start with [other]. *)
Fixpoint relative_to (p other : Path) : result Path :=
  match other, p with
  | [], _ => inr p
  | o :: other', x :: p' =>
      if String.eqb o x then relative_to p' other' else inl ValueError
  | _ :: _, [] => inl ValueError
  end.

(** ** calculate_relative_path *)

Definition calculate_relative_path (from_file : Path) (to_path : text) : result text :=
  (* Remove the leading slash from to_path *)
  let to_path := lstrip "/" to_path in
  (* Get the directory of the source file relative to content root *)
  match relative_to (parent from_file) content_root with
  | inl e => inl e
  | inr from_dir =>
      (* Calculate how many levels up we need to go *)
      let levels_up := length from_dir in
      if Nat.eqb levels_up 0 then
        inr to_path
      else
        let up_path := repeat_text (str "../") levels_up in
        inr (up_path ++ to_path)
  end.

(** ** The world: files, console, and a record of the writes

    A file's data is the text [f.read()] returns for it (decoding and
    newline translation are not modelled), or is not decodable as UTF-8.
    Opening a file for writing either fails before the file is touched or
    replaces its whole content.  Every path names a file of its own:
    symbolic and hard links, through which a write to one path changes what
    another path reads, are not modelled, and no property below says what
    processing one file does to the other paths. *)

Inductive file_data :=
| Text (content : text)
| Undecodable.

Record file := { data : file_data; readable : bool; writable : bool }.

Inductive node :=
| Dir
| File (f : file).

Definition filesystem := list (Path * node).

Definition path_eqb (p q : Path) : bool :=
  if list_eq_dec string_dec p q then true else false.

Fixpoint lookup (p : Path) (fs : filesystem) : option node :=
  match fs with
  | [] => None
  | (q, n) :: fs' => if path_eqb p q then Some n else lookup p fs'
  end.

Fixpoint update (p : Path) (n : node) (fs : filesystem) : filesystem :=
  match fs with
  | [] => [(p, n)]
  | (q, m) :: fs' => if path_eqb p q then (q, n) :: fs' else (q, m) :: update p n fs'
  end.

(** [open(p, 'r', encoding='utf-8')] and [f.read()] *)
Definition read_file (fs : filesystem) (p : Path) : result text :=
  match lookup p fs with
  | None => inl FileNotFoundError
  | Some Dir => inl IsADirectoryError
  | Some (File f) =>
      if readable f then
        match data f with
        | Text c => inr c
        | Undecodable => inl UnicodeDecodeError
        end
      else inl PermissionError
  end.

(** [open(p, 'w', encoding='utf-8')] and [f.write(c)] *)
Definition write_file (fs : filesystem) (p : Path) (c : text) : result filesystem :=
  match lookup p fs with
  | None =>
      match lookup (parent p) fs with
      | Some Dir => inr (update p (File {| data := Text c; readable := true; writable := true |}) fs)
      | _ => inl FileNotFoundError
      end
  | Some Dir => inl IsADirectoryError
  | Some (File f) =>
      if writable f then
        inr (update p (File {| data := Text c; readable := readable f; writable := true |}) fs)
      else inl PermissionError
  end.

(** What the script prints, one constructor per [print]. *)
Inductive msg :=
| Fixed (link_url relative_url : text)     (* "  Fixed: {link_url} -> {relative_url}" *)
| FixedLinksIn (fixed_links : nat) (file_path : Path)
                                           (* "Fixed {fixed_links} links in {file_path}" *)
| ErrorProcessing (file_path : Path) (e : exn)
                                           (* "Error processing {file_path}: {e}" *)
| ContentDirNotFound (content_dir : Path)  (* "Content directory not found: {content_dir}" *)
| Converting                               (* "Converting absolute internal links ..." *)
| ProcessingIn (content_dir : Path)        (* "Processing markdown files in: ..." *)
| SummaryHeader                            (* "\nSummary:" *)
| Processed (total_files : nat)            (* "  Processed {total_files} markdown files" *)
| FixedInternal (total_fixed : nat).       (* "  Fixed {total_fixed} internal links" *)

Record World := {
  fs : filesystem;
  console : list msg;       (* what was printed, oldest first *)
  written : list Path       (* the files overwritten, oldest first *)
}.

(** ** A state-and-exception monad over the world *)

Definition IO (A : Type) := World -> result A * World.

Definition ret (A : Type) (a : A) : IO A := fun w => (inr a, w).

Definition bind (A B : Type) (c : IO A) (k : A -> IO B) : IO B :=
  fun w =>
    match c w with
    | (inr a, w') => k a w'
    | (inl e, w') => (inl e, w')
    end.

Definition raise (A : Type) (e : exn) : IO A := fun w => (inl e, w).
Arguments raise {A} e.

Definition lift (A : Type) (r : result A) : IO A := fun w => (r, w).

(** [try: body  except Exception as e: handler(e)] *)
Definition try_except (A : Type) (body : IO A) (handler : exn -> IO A) : IO A :=
  fun w =>
    match body w with
    | (inr a, w') => (inr a, w')
    | (inl e, w') => if is_Exception e then handler e w' else (inl e, w')
    end.

Declare Scope io_scope.
Delimit Scope io_scope with io.
Notation "x <- c ;; k" := (bind c (fun x => k))
  (at level 61, c at next level, right associativity) : io_scope.
Notation "' pat <- c ;; k" := (bind c (fun x => match x with pat => k end))
  (at level 61, pat pattern, c at next level, right associativity) : io_scope.
Notation "c ;; k" := (bind c (fun _ => k))
  (at level 61, right associativity) : io_scope.
Open Scope io_scope.

Definition print (m : msg) : IO unit :=
  fun w => (inr tt, {| fs := fs w; console := console w ++ [m]; written := written w |}).

Definition read_text (p : Path) : IO text :=
  fun w => (read_file (fs w) p, w).

Definition write_text (p : Path) (c : text) : IO unit :=
  fun w =>
    match write_file (fs w) p c with
    | inr fs' => (inr tt, {| fs := fs'; console := console w; written := written w ++ [p] |})
    | inl e => (inl e, w)
    end.

(** [pattern.sub(repl, s)] with a callback: the callback runs on the
    matches from left to right; [st] is what the callback's closure holds. *)
Fixpoint sub_tokens (S : Type) (repl : Re.Match -> S -> IO (text * S))
         (toks : list Re.token) (st : S) : IO (text * S) :=
  match toks with
  | [] => ret ([], st)
  | Re.Lit c :: toks' =>
      '(out, st') <- sub_tokens repl toks' st ;;
      ret (c :: out, st')
  | Re.Hit m :: toks' =>
      '(r, st1) <- repl m st ;;
      '(out, st2) <- sub_tokens repl toks' st1 ;;
      ret (r ++ out, st2)
  end.

Definition re_sub (S : Type) (p : Re.pattern) (repl : Re.Match -> S -> IO (text * S))
           (s : text) (st : S) : IO (text * S) :=
  sub_tokens repl (Re.scan p s) st.

(** ** fix_links_in_file *)

(** The nested function; [fixed_links] is its nonlocal counter. *)
Definition replace_link (file_path : Path) (m : Re.Match) (fixed_links : nat)
  : IO (text * nat) :=
  let link_text := Re.group1 m in
  let link_url := Re.group2 m in
  (* Skip external links *)
  if EXTERNAL_LINK_PATTERN_match link_url then
    ret (Re.group0 m, fixed_links)
  (* Skip links that are already relative (don't start with /) *)
  else if negb (startswith (str "/") link_url) then
    ret (Re.group0 m, fixed_links)
  else
    (* Convert absolute link to relative *)
    relative_url <- lift (calculate_relative_path file_path link_url) ;;
    let fixed_links := fixed_links + 1 in
    print (Fixed link_url relative_url) ;;
    ret (str "[" ++ link_text ++ str "](" ++ relative_url ++ str ")", fixed_links).

Definition fix_links_in_file (file_path : Path) : IO nat :=
  try_except
    (content <- read_text file_path ;;
     '(content', fixed_links) <-
        re_sub MARKDOWN_LINK_PATTERN (replace_link file_path) content 0 ;;
     (if (0 <? fixed_links)%nat then
        write_text file_path content' ;;
        print (FixedLinksIn fixed_links file_path)
      else ret tt) ;;
     ret fixed_links)
    (fun e =>
       print (ErrorProcessing file_path e) ;;
       ret 0).

(** ** main *)

Fixpoint is_prefix (p q : Path) : bool :=
  match p, q with
  | [], _ => true
  | a :: p', b :: q' => String.eqb a b && is_prefix p' q'
  | _ :: _, [] => false
  end.

(** [fnmatch(name, "*.md")] *)
Definition is_md (name : string) : bool :=
  let n := String.length name in
  (3 <=? n)%nat && String.eqb (String.substring (n - 3) 3 name) ".md".

(** [content_dir.exists()] *)
Definition path_exists (p : Path) : IO bool :=
  fun w => (inr (match lookup p (fs w) with Some _ => true | None => false end), w).

(** [content_dir.rglob("*.md")]: every entry below [content_dir] whose name
    ends in [.md], in the order in which the file system lists them. *)
Definition md_files (content_dir : Path) (fs0 : filesystem) : list Path :=
  filter
    (fun p => is_prefix content_dir p
              && (length content_dir <? length p)%nat
              && is_md (last p EmptyString))
    (map fst fs0).

Definition rglob_md (content_dir : Path) : IO (list Path) :=
  fun w => (inr (md_files content_dir (fs w)), w).

(** The [for md_file in ...] loop, with its two counters. *)
Fixpoint for_each_md (files : list Path) (total_fixed total_files : nat)
  : IO (nat * nat) :=
  match files with
  | [] => ret (total_fixed, total_files)
  | md_file :: files' =>
      let total_files := total_files + 1 in
      fixed_count <- fix_links_in_file md_file ;;
      let total_fixed := total_fixed + fixed_count in
      for_each_md files' total_fixed total_files
  end.

Definition main : IO unit :=
  let content_dir := content_root in
  found <- path_exists content_dir ;;
  (if negb found then
     print (ContentDirNotFound content_dir) ;;
     raise (SystemExit 1)
   else ret tt) ;;
  print Converting ;;
  print (ProcessingIn content_dir) ;;
  files <- rglob_md content_dir ;;
  '(total_fixed, total_files) <- for_each_md files 0 0 ;;
  print SummaryHeader ;;
  print (Processed total_files) ;;
  print (FixedInternal total_fixed).

(** The exit status of [python fix-links.py], and the world it leaves. *)
Definition run_script (w : World) : nat * World :=
  match main w with
  | (inr _, w') => (0, w')
  | (inl (SystemExit code), w') => (code, w')
  | (inl _, w') => (1, w')
  end.

(** The world after [ms] more lines were printed. *)
Definition say (w : World) (ms : list msg) : World :=
  {| fs := fs w; console := console w ++ ms; written := written w |}.

(** ** What the script does to a text, without the world

    [fix_links_text file_path content] is the new content and the value of
    [fixed_links] that [fix_links_in_file] has computed when it reaches
    [if fixed_links > 0], or the exception raised on the way. *)

Definition no_world : World := {| fs := []; console := []; written := [] |}.

Definition fix_links_text (file_path : Path) (content : text) : result (text * nat) :=
  fst (re_sub MARKDOWN_LINK_PATTERN (replace_link file_path) content 0 no_world).

(** A markdown file [name] in the directory [dirs] below the content root;
    the directory is at depth [length dirs]. *)
Definition md_file (dirs : list string) (name : string) : Path :=
  content_root ++ dirs ++ [name].

(** The text [[t](u)]. *)
Definition link (t u : text) : text := "[" :: t ++ "]" :: "(" :: u ++ [")"].

(** ** The link pattern read directly

    [[^\]]+] is followed by [\]] and [[^)]+] by [\)], so giving characters
    back never helps: the display text is the longest run without []], the
    URL the longest run without [)]. *)

Definition not_char (c x : ascii) : bool := negb (Ascii.eqb x c).

Fixpoint span (p : ascii -> bool) (s : text) : text * text :=
  match s with
  | c :: s' => if p c then let (a, b) := span p s' in (c :: a, b) else ([], s)
  | [] => ([], [])
  end.

(** Display text, URL and rest of the text of a link that starts [s]. *)
Definition link_at (s : text) : option (text * text * text) :=
  match s with
  | c :: s1 =>
      if Ascii.eqb c "[" then
        let (t, s2) := span (not_char "]") s1 in
        match t, s2 with
        | _ :: _, c1 :: c2 :: c3 :: s3 =>
            if Ascii.eqb c1 "]" && Ascii.eqb c2 "(" && Ascii.eqb c3 "/" then
              let (u, s4) := span (not_char ")") s3 in
              match u, s4 with
              | _ :: _, c4 :: s5 =>
                  if Ascii.eqb c4 ")" then Some (t, "/" :: u, s5) else None
              | _, _ => None
              end
            else None
        | _, _ => None
        end
      else None
  | [] => None
  end.

Definition link_match (t u : text) : Re.Match :=
  {| Re.group0 := link t u; Re.group1 := t; Re.group2 := u |}.

(** What every match of the link pattern is: a link whose URL starts with a
    slash. *)
Definition good_token (tok : Re.token) : Prop :=
  match tok with
  | Re.Lit _ => True
  | Re.Hit m => exists t u', m = link_match t ("/" :: u')
  end.

(** The pattern as an automaton over the characters of one attempt: how far
    an attempt has got. *)
Inductive mstate :=
| S0     (* nothing read *)
| T0     (* after [[], no display text yet *)
| T1     (* in the display text *)
| P      (* after []], expecting [(] *)
| Sl     (* after [(], expecting [/] *)
| U0     (* after [/], no further URL character yet *)
| U1     (* in the URL *)
| Acc    (* matched *)
| Rej.   (* failed *)

Definition step (q : mstate) (c : ascii) : mstate :=
  match q with
  | S0 => if Ascii.eqb c "[" then T0 else Rej
  | T0 => if Ascii.eqb c "]" then Rej else T1
  | T1 => if Ascii.eqb c "]" then P else T1
  | P => if Ascii.eqb c "(" then Sl else Rej
  | Sl => if Ascii.eqb c "/" then U0 else Rej
  | U0 => if Ascii.eqb c ")" then Rej else U1
  | U1 => if Ascii.eqb c ")" then Acc else U1
  | Acc => Acc
  | Rej => Rej
  end.

Definition run (q : mstate) (s : text) : mstate := fold_left step s q.

(** No attempt succeeds anywhere in [s]. *)
Fixpoint quiet (s : text) : Prop :=
  match s with
  | [] => True
  | _ :: s' => run S0 s <> Acc /\ quiet s'
  end.

(** The relative URL for a file at depth [d], and the rewritten link. *)
Definition relative (d : nat) (url : text) : text :=
  repeat_text (str "../") d ++ lstrip "/" url.

Definition render (d : nat) (t u : text) : text := link t (relative d u).

(** The new text and the number of rewritten links, for a file at depth [d]:
    what [fix_links_text] returns for a file below the content root (lemma
    [fix_links_text_md]). *)
Fixpoint rewrite_tokens (d : nat) (toks : list Re.token) : text * nat :=
  match toks with
  | [] => ([], 0)
  | Re.Lit c :: toks' =>
      let (o, n) := rewrite_tokens d toks' in (c :: o, n)
  | Re.Hit m :: toks' =>
      let (o, n) := rewrite_tokens d toks' in
      (render d (Re.group1 m) (Re.group2 m) ++ o, S n)
  end.

Definition rewrite_text (d : nat) (s : text) : text * nat :=
  rewrite_tokens d (Re.scan MARKDOWN_LINK_PATTERN s).

(** The [Fixed: ...] lines of one file. *)
Fixpoint fixed_msgs (d : nat) (toks : list Re.token) : list msg :=
  match toks with
  | [] => []
  | Re.Lit _ :: toks' => fixed_msgs d toks'
  | Re.Hit m :: toks' =>
      Fixed (Re.group2 m) (relative d (Re.group2 m)) :: fixed_msgs d toks'
  end.

(** The URLs of the links the script rewrites in [s]. *)
Fixpoint hit_urls (toks : list Re.token) : list text :=
  match toks with
  | [] => []
  | Re.Lit _ :: toks' => hit_urls toks'
  | Re.Hit m :: toks' => Re.group2 m :: hit_urls toks'
  end.

Definition matched_urls (s : text) : list text :=
  hit_urls (Re.scan MARKDOWN_LINK_PATTERN s).

(** [p] occurs in [s]. *)
Fixpoint has_infix (p s : text) : bool :=
  startswith p s ||
  match s with
  | [] => false
  | _ :: s' => has_infix p s'
  end.

(** Every [[] of [s] is followed, later in [s], by a []]. *)
Fixpoint closed (s : text) : bool :=
  match s with
  | [] => true
  | c :: s' =>
      (if Ascii.eqb c "[" then existsb (Ascii.eqb "]") s' else true) && closed s'
  end.

(** No suffix of [x], continued by [k], starts with [](/]: no rewrite can
    begin inside [x] when [k] follows it. *)
Fixpoint clear_of_sites (x k : text) : bool :=
  match x with
  | [] => true
  | _ :: x' => negb (startswith (str "](/") (x ++ k)) && clear_of_sites x' k
  end.

(** What a rewrite may do to a text: copy a character, or, right after
    [](], put [up] in the place of a run of slashes. *)
Inductive edits (up : text) : text -> text -> Prop :=
| edits_nil : edits up [] []
| edits_copy c s o : edits up s o -> edits up (c :: s) (c :: o)
| edits_site k s o :
    edits up s o ->
    edits up ("]" :: "(" :: "/" :: repeat "/" k ++ s) ("]" :: "(" :: up ++ o).

(** The sum of the counts in the [Fixed n links in file] lines of [ms]. *)
Fixpoint reported (ms : list msg) : nat :=
  match ms with
  | [] => 0
  | FixedLinksIn n _ :: ms' => n + reported ms'
  | _ :: ms' => reported ms'
  end.

(** * Proofs *)

(** ** Lists of characters *)

(** Appends to the right, conses pulled out. *)
Ltac lnorm := repeat (first [rewrite <- app_assoc | progress cbn [app]]).

Lemma span_app p s : fst (span p s) ++ snd (span p s) = s.
Proof.
  induction s as [|c s IH]; simpl; [reflexivity|].
  destruct (p c); simpl; [|reflexivity].
  destruct (span p s) as [a b]; simpl in *. now rewrite IH.
Qed.

Lemma span_all p s : forallb p (fst (span p s)) = true.
Proof.
  induction s as [|c s IH]; simpl; [reflexivity|].
  destruct (p c) eqn:E; simpl; [|reflexivity].
  destruct (span p s) as [a b]; simpl in *. now rewrite E.
Qed.

Lemma span_stop p s c b : snd (span p s) = c :: b -> p c = false.
Proof.
  induction s as [|x s IH]; simpl; [discriminate|].
  destruct (p x) eqn:E; simpl.
  - destruct (span p s) as [a b']; simpl in *. exact IH.
  - intros H; inversion H; subst. exact E.
Qed.

Lemma span_nil p s b : span p s = ([], b) -> b = s.
Proof.
  destruct s as [|x s]; simpl; [now inversion 1|].
  destruct (p x); [destruct (span p s); discriminate | now inversion 1].
Qed.

Lemma span_cons p s c a b : span p s = (c :: a, b) -> exists s', s = c :: s' /\ p c = true.
Proof.
  destruct s as [|x s]; simpl; [discriminate|].
  destruct (p x) eqn:E; [|discriminate].
  destruct (span p s); inversion 1; subst. eauto.
Qed.

(** A run that satisfies [p] and stops at a character that does not is the
    span. *)
Lemma span_run p a c r :
  forallb p a = true -> p c = false -> span p (a ++ c :: r) = (a, c :: r).
Proof.
  intros Ha Hc. induction a as [|x a IH]; simpl in *.
  - now rewrite Hc.
  - apply andb_prop in Ha as [Hx Ha]. rewrite Hx, (IH Ha). reflexivity.
Qed.

Lemma not_char_all c a : forallb (not_char c) a = true <-> ~ In c a.
Proof.
  unfold not_char. induction a as [|x a IH]; simpl; [tauto|].
  destruct (Ascii.eqb_spec x c); simpl.
  - split; [discriminate | intros H; exfalso; apply H; now left].
  - rewrite IH. split; [intros H [E|E]; [congruence | tauto] | tauto].
Qed.

(** ** The backtracking matcher on the link pattern *)

Lemma plus_greedy_span (A : Type) p (k : text -> option A) :
  (forall c s, p c = true -> k (c :: s) = None) ->
  forall s,
    Re.plus_greedy p k s =
    match span p s with
    | ((_ :: _) as m, b) =>
        match k b with
        | Some r => Some (m, r)
        | None => None
        end
    | ([], _) => None
    end.
Proof.
  intros Hk. induction s as [|c s IH]; simpl; [reflexivity|].
  destruct (p c) eqn:Ec; [|reflexivity].
  rewrite IH. destruct (span p s) as [[|x a] b] eqn:Es.
  - apply span_nil in Es. subst b. destruct (k s); reflexivity.
  - destruct (k b) as [r|] eqn:Eb; [reflexivity|].
    apply span_cons in Es as (s' & -> & Hx). now rewrite (Hk x s' Hx).
Qed.

Lemma match_prefix_link_at s :
  Re.match_prefix MARKDOWN_LINK_PATTERN s =
  match link_at s with
  | Some (t, u, r) => Some (link_match t u, r)
  | None => None
  end.
Proof.
  unfold Re.match_prefix, MARKDOWN_LINK_PATTERN, link_at.
  destruct s as [|c s1]; [reflexivity|].
  cbn [Re.exec Re.el_quant Re.el_atom Re.test].
  destruct (Ascii.eqb c "[") eqn:Ec; [|reflexivity].
  apply Ascii.eqb_eq in Ec. subst c.
  rewrite plus_greedy_span.
  2:{ intros x s Hx. cbn. unfold Re.test in Hx. cbn in Hx.
      destruct (Ascii.eqb x "]"); [discriminate | reflexivity]. }
  change (Re.test (Re.NotChr "]")) with (not_char "]").
  destruct (span (not_char "]") s1) as [[|x t] s2]; [reflexivity|].
  destruct s2 as [|c1 [|c2 [|c3 s3]]]; cbn [Re.exec Re.el_quant Re.el_atom Re.test];
    try reflexivity.
  - destruct (Ascii.eqb c1 "]"); reflexivity.
  - destruct (Ascii.eqb c1 "]"); [|reflexivity]. destruct (Ascii.eqb c2 "("); reflexivity.
  - destruct (Ascii.eqb c1 "]") eqn:E1; [|reflexivity].
    destruct (Ascii.eqb c2 "(") eqn:E2; [|reflexivity].
    destruct (Ascii.eqb c3 "/") eqn:E3; [|reflexivity].
    apply Ascii.eqb_eq in E1, E2, E3. subst. cbn [andb].
    rewrite plus_greedy_span.
    2:{ intros y s Hy. cbn. unfold Re.test in Hy. cbn in Hy.
        destruct (Ascii.eqb y ")"); [discriminate | reflexivity]. }
    change (Re.test (Re.NotChr ")")) with (not_char ")").
    destruct (span (not_char ")") s3) as [[|y u] s4]; [reflexivity|].
    destruct s4 as [|c4 s5]; cbn [Re.exec Re.el_quant Re.el_atom Re.test]; [reflexivity|].
    destruct (Ascii.eqb c4 ")") eqn:E4; [|reflexivity].
    apply Ascii.eqb_eq in E4. subst.
    unfold link_match, link. cbn. 
    rewrite !app_nil_r. reflexivity.
Qed.

(** ** A link at the start of a text *)

Lemma link_at_Some s t u r :
  link_at s = Some (t, u, r) ->
  exists u', u = "/" :: u' /\ s = link t u ++ r /\
             t <> [] /\ ~ In "]" t /\ u' <> [] /\ ~ In ")" u'.
Proof.
  unfold link_at. destruct s as [|c s1]; [discriminate|].
  destruct (Ascii.eqb_spec c "["); [subst c|discriminate].
  pose proof (span_app (not_char "]") s1) as Ha.
  pose proof (span_all (not_char "]") s1) as Hta.
  destruct (span (not_char "]") s1) as [[|x t'] s2]; [discriminate|].
  destruct s2 as [|c1 [|c2 [|c3 s3]]]; try discriminate.
  destruct (Ascii.eqb_spec c1 "]"); [subst c1|discriminate].
  destruct (Ascii.eqb_spec c2 "("); [subst c2|discriminate].
  destruct (Ascii.eqb_spec c3 "/"); [subst c3|discriminate].
  cbn [andb].
  pose proof (span_app (not_char ")") s3) as Hb.
  pose proof (span_all (not_char ")") s3) as Hua.
  destruct (span (not_char ")") s3) as [[|y u'] s4]; [discriminate|].
  destruct s4 as [|c4 s5]; [discriminate|].
  destruct (Ascii.eqb_spec c4 ")"); [subst c4|discriminate].
  intros H. inversion H; subst; clear H. cbn [fst snd] in *.
  exists (y :: u'). repeat split; try discriminate.
  - unfold link. now lnorm.
  - now apply not_char_all.
  - now apply not_char_all.
Qed.

Lemma link_at_link t u' r :
  t <> [] -> ~ In "]" t -> u' <> [] -> ~ In ")" u' ->
  link_at (link t ("/" :: u') ++ r) = Some (t, "/" :: u', r).
Proof.
  intros Ht Hnt Hu Hnu. unfold link, link_at. cbn [app].
  rewrite <- app_assoc. cbn [app Ascii.eqb Bool.eqb].
  rewrite span_run by (try apply not_char_all; auto).
  destruct t as [|x t]; [congruence|]. cbn.
  rewrite <- app_assoc. cbn [app].
  rewrite span_run by (try apply not_char_all; auto).
  destruct u' as [|y u']; [congruence|]. reflexivity.
Qed.

Lemma link_at_not_open c s : c <> "[" -> link_at (c :: s) = None.
Proof.
  intros H. unfold link_at. now destruct (Ascii.eqb_spec c "[").
Qed.

Lemma link_length t u : length (link t u) = length t + length u + 4.
Proof. unfold link. cbn. rewrite !length_app. cbn. rewrite length_app. cbn. lia. Qed.

Lemma link_at_shorter s t u r : link_at s = Some (t, u, r) -> length r < length s.
Proof.
  intros H. apply link_at_Some in H as (u' & _ & -> & _).
  rewrite length_app, link_length. lia.
Qed.

(** ** The scan, unfolded *)

Lemma scan_fuel_enough n : forall m s,
  length s <= n -> length s <= m ->
  Re.scan_fuel MARKDOWN_LINK_PATTERN n s = Re.scan_fuel MARKDOWN_LINK_PATTERN m s.
Proof.
  induction n as [|n IH]; intros m s Hn Hm.
  - destruct s; [|cbn in Hn; lia]. destruct m; reflexivity.
  - destruct m as [|m]; [destruct s; [reflexivity | cbn in Hm; lia]|].
    destruct s as [|c s]; [reflexivity|].
    cbn [Re.scan_fuel]. rewrite match_prefix_link_at.
    destruct (link_at (c :: s)) as [[[t u] r]|] eqn:E.
    + apply link_at_shorter in E. cbn in *. f_equal. apply IH; lia.
    + cbn in *. f_equal. apply IH; lia.
Qed.

Lemma scan_cons c s :
  Re.scan MARKDOWN_LINK_PATTERN (c :: s) =
  match link_at (c :: s) with
  | Some (t, u, r) => Re.Hit (link_match t u) :: Re.scan MARKDOWN_LINK_PATTERN r
  | None => Re.Lit c :: Re.scan MARKDOWN_LINK_PATTERN s
  end.
Proof.
  unfold Re.scan. cbn [length Re.scan_fuel]. rewrite match_prefix_link_at.
  destruct (link_at (c :: s)) as [[[t u] r]|] eqn:E; [|reflexivity].
  apply link_at_shorter in E. cbn in E. f_equal. apply scan_fuel_enough; lia.
Qed.

(** Induction along the scan: a text is empty, starts with a character
    that is copied, or starts with a link. *)
Lemma scan_ind (Q : text -> Prop) :
  Q [] ->
  (forall c s, link_at (c :: s) = None -> Q s -> Q (c :: s)) ->
  (forall s t u r, link_at s = Some (t, u, r) -> Q r -> Q s) ->
  forall s, Q s.
Proof.
  intros Hnil Hlit Hhit s.
  remember (length s) as n eqn:Hn. revert s Hn.
  induction n as [n IH] using lt_wf_ind. intros s Hn.
  destruct s as [|c s]; [exact Hnil|].
  destruct (link_at (c :: s)) as [[[t u] r]|] eqn:E.
  - apply (Hhit _ _ _ _ E). apply link_at_shorter in E.
    apply (IH (length r)); [lia | reflexivity].
  - apply (Hlit _ _ E). apply (IH (length s)); [cbn in Hn; lia | reflexivity].
Qed.

Lemma rewrite_text_nil d : rewrite_text d [] = ([], 0).
Proof. reflexivity. Qed.

Lemma rewrite_text_lit d c s :
  link_at (c :: s) = None ->
  rewrite_text d (c :: s) = (c :: fst (rewrite_text d s), snd (rewrite_text d s)).
Proof.
  intros E. unfold rewrite_text. rewrite scan_cons, E. cbn.
  now destruct (rewrite_tokens d _).
Qed.

Lemma rewrite_text_hit d s t u r :
  link_at s = Some (t, u, r) ->
  rewrite_text d s =
  (render d t u ++ fst (rewrite_text d r), S (snd (rewrite_text d r))).
Proof.
  intros E. unfold rewrite_text.
  destruct s as [|c s]; [discriminate|]. rewrite scan_cons, E. cbn.
  now destruct (rewrite_tokens d _).
Qed.

(** ** The world in the monad *)

Lemma say_nil w : say w [] = w.
Proof. destruct w. unfold say. cbn. now rewrite app_nil_r. Qed.

Lemma say_say w a b : say (say w a) b = say w (a ++ b).
Proof. unfold say. cbn. now rewrite app_assoc. Qed.

Lemma print_say m w : print m w = (inr tt, say w [m]).
Proof. reflexivity. Qed.

(** ** calculate_relative_path below the content root *)

Lemma parent_md_file dirs name : parent (md_file dirs name) = content_root ++ dirs.
Proof.
  unfold parent, md_file. rewrite app_assoc. apply removelast_last.
Qed.

Lemma relative_to_content_root dirs : relative_to (content_root ++ dirs) content_root = inr dirs.
Proof. unfold content_root. cbn. now destruct dirs. Qed.

Lemma calculate_relative_path_md dirs name url :
  calculate_relative_path (md_file dirs name) url = inr (relative (length dirs) url).
Proof.
  unfold calculate_relative_path.
  rewrite parent_md_file, relative_to_content_root. unfold relative.
  destruct dirs; reflexivity.
Qed.

Lemma startswith_slash u : startswith (str "/") u = true <-> exists u', u = "/" :: u'.
Proof.
  unfold str. destruct u as [|c u]; cbn [list_ascii_of_string startswith].
  - split; [discriminate | intros [? ?]; discriminate].
  - rewrite andb_true_r. split.
    + intros H. apply Ascii.eqb_eq in H. subst. eauto.
    + intros [u' H]. inversion H. reflexivity.
Qed.

(** An external URL does not start with a slash. *)
Lemma external_not_slash u :
  EXTERNAL_LINK_PATTERN_match u = true -> startswith (str "/") u = false.
Proof.
  destruct u as [|c u]; [reflexivity|]. intros H.
  unfold str. cbn [startswith list_ascii_of_string].
  destruct (Ascii.eqb_spec "/" c); [subst c; cbn in H; discriminate | reflexivity].
Qed.

(** ** replace_link and the substitution, below the content root *)

Lemma replace_link_md dirs name t u' n w :
  replace_link (md_file dirs name) (link_match t ("/" :: u')) n w =
  (inr (render (length dirs) t ("/" :: u'), n + 1),
   say w [Fixed ("/" :: u') (relative (length dirs) ("/" :: u'))]).
Proof.
  unfold replace_link. cbn [Re.group1 Re.group2 Re.group0 link_match].
  replace (EXTERNAL_LINK_PATTERN_match ("/" :: u')) with false by reflexivity.
  replace (startswith (str "/") ("/" :: u')) with true by reflexivity.
  cbn [negb]. unfold bind, lift. rewrite calculate_relative_path_md.
  rewrite print_say. unfold ret, render, link. cbn. reflexivity.
Qed.

Lemma scan_good s : Forall good_token (Re.scan MARKDOWN_LINK_PATTERN s).
Proof.
  induction s as [| c s E IH | s t u r E IH] using scan_ind.
  - constructor.
  - rewrite scan_cons, E. constructor; [exact I | exact IH].
  - destruct s as [|c s]; [discriminate|]. rewrite scan_cons, E.
    apply link_at_Some in E as (u' & -> & _).
    constructor; [cbn; eauto | exact IH].
Qed.

Lemma sub_tokens_md dirs name toks :
  Forall good_token toks ->
  forall n w,
    sub_tokens (replace_link (md_file dirs name)) toks n w =
    (inr (fst (rewrite_tokens (length dirs) toks),
          n + snd (rewrite_tokens (length dirs) toks)),
     say w (fixed_msgs (length dirs) toks)).
Proof.
  induction 1 as [|tok toks Htok _ IH]; intros n w.
  - cbn. unfold ret. now rewrite say_nil, Nat.add_0_r.
  - destruct tok as [c|m]; cbn [sub_tokens rewrite_tokens fixed_msgs].
    + unfold bind. rewrite IH. unfold ret.
      destruct (rewrite_tokens (length dirs) toks). reflexivity.
    + destruct Htok as (t & u' & ->). unfold bind at 1.
      rewrite replace_link_md. unfold bind. rewrite IH, say_say. unfold ret.
      cbn [Re.group1 Re.group2 link_match].
      destruct (rewrite_tokens (length dirs) toks) as [o k]. cbn [fst snd app].
      do 2 f_equal. f_equal. lia.
Qed.

Lemma re_sub_md dirs name s w :
  re_sub MARKDOWN_LINK_PATTERN (replace_link (md_file dirs name)) s 0 w =
  (inr (rewrite_text (length dirs) s),
   say w (fixed_msgs (length dirs) (Re.scan MARKDOWN_LINK_PATTERN s))).
Proof.
  unfold re_sub, rewrite_text. rewrite (sub_tokens_md _ _ (scan_good s)). cbn [Nat.add].
  now destruct (rewrite_tokens _ _).
Qed.

Lemma fix_links_text_md dirs name s :
  fix_links_text (md_file dirs name) s = inr (rewrite_text (length dirs) s).
Proof. unfold fix_links_text. now rewrite re_sub_md. Qed.

(** ** fix_links_in_file *)

Lemma read_file_Exception fs0 p e : read_file fs0 p = inl e -> is_Exception e = true.
Proof.
  unfold read_file. destruct (lookup p fs0) as [[|f]|]; try (inversion 1; reflexivity).
  destruct (readable f); [destruct (data f)|]; inversion 1; reflexivity.
Qed.

Lemma write_file_Exception fs0 p c e : write_file fs0 p c = inl e -> is_Exception e = true.
Proof.
  unfold write_file. destruct (lookup p fs0) as [[|f]|].
  - inversion 1; reflexivity.
  - destruct (writable f); inversion 1; reflexivity.
  - destruct (lookup (parent p) fs0) as [[|f]|]; inversion 1; reflexivity.
Qed.

Lemma calculate_relative_path_Exception p u e :
  calculate_relative_path p u = inl e -> e = ValueError.
Proof.
  unfold calculate_relative_path.
  assert (H : forall a b e', relative_to a b = inl e' -> e' = ValueError).
  { intros a b. revert a. induction b as [|o b IH]; intros a e'; destruct a as [|x a]; cbn;
      try discriminate; try (now inversion 1).
    destruct (String.eqb o x); [apply IH | now inversion 1]. }
  destruct (relative_to (parent p) content_root) eqn:E.
  - inversion 1; subst. eapply H, E.
  - destruct (Nat.eqb _ _); discriminate.
Qed.

(** A file that cannot be read: the error is printed, nothing else happens. *)
Lemma fix_links_in_file_unreadable p w e :
  read_file (fs w) p = inl e ->
  fix_links_in_file p w = (inr 0, say w [ErrorProcessing p e]).
Proof.
  intros H. unfold fix_links_in_file, try_except, bind at 1, read_text.
  rewrite H, (read_file_Exception _ _ H). reflexivity.
Qed.

(** A readable file below the content root. *)
Lemma fix_links_in_file_md dirs name w c :
  let p := md_file dirs name in
  let d := length dirs in
  let w1 := say w (fixed_msgs d (Re.scan MARKDOWN_LINK_PATTERN c)) in
  read_file (fs w) p = inr c ->
  fix_links_in_file p w =
  match snd (rewrite_text d c) with
  | O => (inr 0, w1)
  | S _ as n =>
      match write_file (fs w) p (fst (rewrite_text d c)) with
      | inr fs' =>
          (inr n, {| fs := fs';
                     console := console w1 ++ [FixedLinksIn n p];
                     written := written w ++ [p] |})
      | inl e => (inr 0, say w1 [ErrorProcessing p e])
      end
  end.
Proof.
  intros p d w1 H. unfold fix_links_in_file, try_except, bind at 1, read_text.
  rewrite H. unfold bind at 1. subst p. rewrite re_sub_md. fold d. fold w1.
  destruct (rewrite_text d c) as [c' n]. cbn [fst snd].
  destruct n as [|n]; [reflexivity|].
  cbn [Nat.ltb Nat.leb]. unfold bind, write_text.
  change (fs w1) with (fs w). change (written w1) with (written w).
  destruct (write_file (fs w) (md_file dirs name) c') as [e|fs'] eqn:E.
  - rewrite (write_file_Exception _ _ _ E). reflexivity.
  - reflexivity.
Qed.

(** No [Fixed:] line without a rewritten link. *)
Lemma fixed_msgs_none d toks : snd (rewrite_tokens d toks) = 0 -> fixed_msgs d toks = [].
Proof.
  induction toks as [|[c|m] toks IH]; cbn; [reflexivity| |];
    destruct (rewrite_tokens d toks); cbn in *; [exact IH | discriminate].
Qed.

(** What the substitution can raise and what it leaves alone, for any path. *)
Lemma sub_tokens_frame p toks : forall n w,
  fs (snd (sub_tokens (replace_link p) toks n w)) = fs w /\
  written (snd (sub_tokens (replace_link p) toks n w)) = written w /\
  (forall e, fst (sub_tokens (replace_link p) toks n w) = inl e -> e = ValueError).
Proof.
  induction toks as [|[c|m] toks IH]; intros n w.
  - cbn. repeat split; discriminate.
  - cbn [sub_tokens]. unfold bind. specialize (IH n w).
    destruct (sub_tokens (replace_link p) toks n w) as [[e|[o k]] w'];
      cbn [fst snd] in *; [|repeat split; try apply IH; discriminate].
    destruct IH as (? & ? & He). repeat split; auto.
  - assert (Hr : fs (snd (replace_link p m n w)) = fs w /\
                 written (snd (replace_link p m n w)) = written w /\
                 (forall e, fst (replace_link p m n w) = inl e -> e = ValueError)).
    { unfold replace_link.
      destruct (EXTERNAL_LINK_PATTERN_match _); [cbn; repeat split; discriminate|].
      destruct (negb _); [cbn; repeat split; discriminate|].
      unfold bind, lift.
      destruct (calculate_relative_path p (Re.group2 m)) eqn:E; cbn.
      - repeat split. intros e0 H0. inversion H0; subst.
        eapply calculate_relative_path_Exception, E.
      - repeat split; discriminate. }
    cbn [sub_tokens]. unfold bind.
    destruct (replace_link p m n w) as [[e|[r k]] w1]; cbn [fst snd] in *.
    + exact Hr.
    + destruct Hr as (Hf & Hw & _). specialize (IH k w1).
      destruct (sub_tokens (replace_link p) toks k w1) as [[e|[o k']] w2];
        unfold ret; cbn [fst snd] in *; destruct IH as (? & ? & He);
        (split; [congruence | split; [congruence |]]);
        [exact He | intros ? ?; discriminate].
Qed.

(** [fix_links_in_file] always returns, whatever the path and the world;
    it touches the file system only when it returns a positive count. *)
Lemma fix_links_in_file_returns p w :
  exists n w', fix_links_in_file p w = (inr n, w') /\
    (n = 0 /\ fs w' = fs w /\ written w' = written w
     \/
     0 < n /\ written w' = written w ++ [p]
           /\ exists c', write_file (fs w) p c' = inr (fs w')).
Proof.
  unfold fix_links_in_file, try_except, bind at 1, read_text.
  destruct (read_file (fs w) p) as [e|c] eqn:Er.
  - rewrite (read_file_Exception _ _ Er). do 2 eexists. split; [reflexivity|]. cbn. auto.
  - unfold bind at 1, re_sub.
    pose proof (sub_tokens_frame p (Re.scan MARKDOWN_LINK_PATTERN c) 0 w) as (Hf & Hw & He).
    destruct (sub_tokens _ _ 0 w) as [[e|[c' k]] w1]; cbn [fst snd] in *.
    + rewrite (He e eq_refl). do 2 eexists. split; [reflexivity|]. cbn. auto.
    + destruct k as [|k].
      * do 2 eexists. split; [reflexivity|]. cbn. auto.
      * cbn [Nat.ltb Nat.leb]. unfold bind, write_text. rewrite Hf.
        destruct (write_file (fs w) p c') as [e|fs'] eqn:E.
        -- rewrite (write_file_Exception _ _ _ E). do 2 eexists.
           split; [reflexivity|]. cbn. auto.
        -- do 2 eexists. split; [reflexivity|]. right. cbn.
           repeat split; [lia | now rewrite Hw | eauto].
Qed.

(** The substitution prints, and does nothing else to the world: its
    result is the same in every world. *)
Lemma replace_link_world p m n :
  exists ms, forall w,
    replace_link p m n w = (fst (replace_link p m n no_world), say w ms).
Proof.
  unfold replace_link.
  destruct (EXTERNAL_LINK_PATTERN_match _).
  { exists []. intros w. unfold ret. now rewrite say_nil. }
  destruct (negb _).
  { exists []. intros w. unfold ret. now rewrite say_nil. }
  unfold bind, lift. destruct (calculate_relative_path p (Re.group2 m)) as [e|r].
  - exists []. intros w. now rewrite say_nil.
  - exists [Fixed (Re.group2 m) r]. intros w. reflexivity.
Qed.

Lemma sub_tokens_world p toks : forall n,
  exists ms, forall w,
    sub_tokens (replace_link p) toks n w =
    (fst (sub_tokens (replace_link p) toks n no_world), say w ms).
Proof.
  induction toks as [|[c|m] toks IH]; intros n.
  - exists []. intros w. cbn. unfold ret. now rewrite say_nil.
  - destruct (IH n) as [ms H]. exists ms. intros w.
    cbn [sub_tokens]. unfold bind. rewrite (H w).
    destruct (sub_tokens (replace_link p) toks n no_world) as [[e|[o k]] w0];
      reflexivity.
  - destruct (replace_link_world p m n) as [ms1 H1].
    cbn [sub_tokens]. unfold bind.
    destruct (replace_link p m n no_world) as [[e|[r k]] w0] eqn:E0.
    + exists ms1. intros w. rewrite (H1 w). reflexivity.
    + destruct (IH k) as [ms2 H2]. exists (ms1 ++ ms2). intros w.
      rewrite (H1 w). cbn [fst]. rewrite (H2 (say w ms1)), say_say.
      assert (Hw0 : w0 = say no_world ms1).
      { specialize (H1 no_world). rewrite E0 in H1. now inversion H1. }
      rewrite Hw0, (H2 (say no_world ms1)).
      destruct (sub_tokens (replace_link p) toks k no_world) as [[e|[o k']] w2];
        reflexivity.
Qed.

Lemma re_sub_world p c :
  exists ms, forall w,
    re_sub MARKDOWN_LINK_PATTERN (replace_link p) c 0 w = (fix_links_text p c, say w ms).
Proof. apply sub_tokens_world. Qed.

Lemma fix_links_text_Exception p c e : fix_links_text p c = inl e -> e = ValueError.
Proof. apply sub_tokens_frame. Qed.

(** Every way through [fix_links_in_file], for any path: [ms] are the
    [Fixed:] lines. *)
Lemma fix_links_in_file_spec p w :
  exists ms,
    fix_links_in_file p w =
    match read_file (fs w) p with
    | inl e => (inr 0, say w [ErrorProcessing p e])
    | inr c =>
        match fix_links_text p c with
        | inl e => (inr 0, say w (ms ++ [ErrorProcessing p e]))
        | inr (_, O) => (inr 0, say w ms)
        | inr (c', S _ as n) =>
            match write_file (fs w) p c' with
            | inr fs' =>
                (inr n, {| fs := fs';
                           console := console w ++ ms ++ [FixedLinksIn n p];
                           written := written w ++ [p] |})
            | inl e => (inr 0, say w (ms ++ [ErrorProcessing p e]))
            end
        end
    end.
Proof.
  destruct (read_file (fs w) p) as [e|c] eqn:Er.
  { exists []. now apply fix_links_in_file_unreadable. }
  destruct (re_sub_world p c) as [ms H]. exists ms.
  unfold fix_links_in_file, try_except, bind at 1, read_text.
  rewrite Er. unfold bind at 1. rewrite (H w).
  destruct (fix_links_text p c) as [e|[c' [|k]]] eqn:Et.
  - rewrite (fix_links_text_Exception _ _ Et). cbn. unfold ret, say. cbn.
    now rewrite <- app_assoc.
  - reflexivity.
  - cbn [Nat.ltb Nat.leb]. unfold bind, write_text. cbn [say fs written console].
    destruct (write_file (fs w) p c') as [e|fs'] eqn:E.
    + rewrite (write_file_Exception _ _ _ E). cbn. unfold say. cbn.
      now rewrite <- app_assoc.
    + cbn. now rewrite <- app_assoc.
Qed.

(** ** Reading a file back *)

Lemma path_eqb_refl p : path_eqb p p = true.
Proof. unfold path_eqb. now destruct (list_eq_dec string_dec p p). Qed.

Lemma lookup_update_same p n fs0 : lookup p (update p n fs0) = Some n.
Proof.
  induction fs0 as [|[q m] fs0 IH]; cbn.
  - now rewrite path_eqb_refl.
  - destruct (path_eqb p q) eqn:E; cbn; now rewrite E.
Qed.

Lemma read_after_write fs0 p c0 c fs' :
  read_file fs0 p = inr c0 -> write_file fs0 p c = inr fs' -> read_file fs' p = inr c.
Proof.
  unfold read_file, write_file.
  destruct (lookup p fs0) as [[|f]|]; try discriminate.
  destruct (readable f) eqn:Er; [|discriminate]. intros _.
  destruct (writable f); [|discriminate]. intros H. injection H as <-.
  rewrite lookup_update_same. reflexivity.
Qed.

(** The count is the number of matches. *)
Lemma rewrite_tokens_count d toks : snd (rewrite_tokens d toks) = length (hit_urls toks).
Proof.
  induction toks as [|[c|m] toks IH]; cbn; [reflexivity| |];
    destruct (rewrite_tokens d toks); cbn in *; congruence.
Qed.

(** ** The loop and main *)

Lemma for_each_md_cons p files tf tn w n w' :
  fix_links_in_file p w = (inr n, w') ->
  for_each_md (p :: files) tf tn w = for_each_md files (tf + n) (tn + 1) w'.
Proof. intros H. cbn [for_each_md]. unfold bind. now rewrite H. Qed.

(** The loop visits every file and never raises. *)
Lemma for_each_md_total files : forall tf tn w,
  exists tf' w', for_each_md files tf tn w = (inr (tf', tn + length files), w').
Proof.
  induction files as [|p files IH]; intros tf tn w.
  - exists tf, w. cbn. unfold ret. now rewrite Nat.add_0_r.
  - destruct (fix_links_in_file_returns p w) as (n & w1 & H & _).
    rewrite for_each_md_cons with (1 := H).
    destruct (IH (tf + n) (tn + 1) w1) as (tf' & w' & H').
    exists tf', w'. rewrite H'. cbn [length]. do 2 f_equal. f_equal. lia.
Qed.

Lemma main_found w :
  lookup content_root (fs w) <> None ->
  let files := md_files content_root (fs w) in
  exists total_fixed w0,
    for_each_md files 0 0 (say w [Converting; ProcessingIn content_root]) =
      (inr (total_fixed, length files), w0) /\
    main w = (inr tt, say w0 [SummaryHeader; Processed (length files);
                              FixedInternal total_fixed]).
Proof.
  intros H files.
  destruct (for_each_md_total files 0 0 (say w [Converting; ProcessingIn content_root]))
    as (tf & w0 & Hl).
  exists tf, w0. split; [exact Hl|].
  unfold main, bind at 1, path_exists.
  destruct (lookup content_root (fs w)); [|congruence]. cbn [negb].
  unfold bind at 1, ret at 1. unfold bind at 1. rewrite print_say.
  unfold bind at 1. rewrite print_say, say_say. unfold bind at 1, rglob_md.
  cbn [app]. change (fs (say w _)) with (fs w). fold files. unfold bind at 1.
  rewrite Hl. unfold bind. rewrite !print_say, !say_say. reflexivity.
Qed.

(** ** Stripping slashes *)

Lemma lstrip_slashes k rest :
  startswith (str "/") rest = false -> lstrip "/" (repeat "/" k ++ rest) = rest.
Proof.
  intros H. induction k as [|k IH]; cbn [repeat app lstrip].
  - destruct rest as [|c rest]; [reflexivity|]. cbn [lstrip].
    unfold str in H. cbn [list_ascii_of_string startswith] in H.
    rewrite andb_true_r in H. rewrite Ascii.eqb_sym in H. now rewrite H.
  - replace (Ascii.eqb "/" "/") with true by reflexivity. exact IH.
Qed.

Lemma lstrip_no_slash s : startswith (str "/") (lstrip "/" s) = false.
Proof.
  induction s as [|c s IH]; [reflexivity|]. cbn [lstrip].
  destruct (Ascii.eqb c "/") eqn:E; [exact IH|].
  unfold str. cbn [list_ascii_of_string startswith].
  rewrite Ascii.eqb_sym, E. reflexivity.
Qed.

Lemma relative_one d rest :
  startswith (str "/") rest = false ->
  relative d ("/" :: rest) = repeat_text (str "../") d ++ rest.
Proof.
  intros H. unfold relative. f_equal. exact (lstrip_slashes 1 rest H).
Qed.


(** ** The claims about calculate_relative_path *)

(** C1. For a markdown file whose directory lies [d] levels below the content
    root and a link target that is a slash followed by [rest], where [rest]
    does not itself begin with a slash, the rewritten URL is [d] times [../]
    followed by [rest]; for [d = 0] it is [rest] unchanged; a link with that
    target is rewritten to a link with that URL; and in
    content/sub/dir/page.md the link [[x](/a/b)] becomes [[x](../../a/b)]. *)
Theorem C1_relative_url_by_depth (d : nat) (dirs : list string) (name : string) (rest : text) :
  length dirs = d ->
  startswith (str "/") rest = false ->
  calculate_relative_path (md_file dirs name) ("/" :: rest)
    = inr (repeat_text (str "../") d ++ rest)
  /\ (d = 0 -> calculate_relative_path (md_file dirs name) ("/" :: rest) = inr rest)
  /\ (forall t, t <> [] -> ~ In "]" t -> rest <> [] -> ~ In ")" rest ->
      fix_links_text (md_file dirs name) (link t ("/" :: rest))
        = inr (link t (repeat_text (str "../") d ++ rest), 1))
  /\ fix_links_text (md_file ["sub"; "dir"]%string "page.md") (str "[x](/a/b)")
       = inr (str "[x](../../a/b)", 1).
Proof.
  intros Hd Hrest. subst d.
  assert (Hc : calculate_relative_path (md_file dirs name) ("/" :: rest)
               = inr (repeat_text (str "../") (length dirs) ++ rest)).
  { now rewrite calculate_relative_path_md, relative_one. }
  split; [exact Hc|]. split; [|split].
  - intros H0. rewrite Hc, H0. reflexivity.
  - intros t Ht Hnt Hr Hnr. rewrite fix_links_text_md.
    rewrite <- (app_nil_r (link t ("/" :: rest))) at 1.
    rewrite rewrite_text_hit with (1 := link_at_link [] Ht Hnt Hr Hnr).
    rewrite rewrite_text_nil. cbn [fst snd]. unfold render.
    now rewrite app_nil_r, relative_one.
  - vm_compute. reflexivity.
Qed.

Lemma C1_witness :
  calculate_relative_path (md_file ["docs"%string] "a.md") (str "/x/y") = inr (str "../x/y").
Proof.
  exact (proj1 (@C1_relative_url_by_depth 1 ["docs"%string] "a.md"%string (str "x/y")
                  eq_refl eq_refl)).
Defined.

(** C8, refuted as stated. For the target [//a/b] the script goes on with
    [a/b], not with [/a/b]: more than the first slash is removed, so it is
    not true that every target loses exactly its first slash. *)
Lemma C8_counterexample :
  calculate_relative_path (md_file [] "page.md") (str "//a/b") = inr (str "a/b")
  /\ ~ (forall dirs name rest,
          calculate_relative_path (md_file dirs name) ("/" :: rest)
          = inr (repeat_text (str "../") (length dirs) ++ rest)).
Proof.
  split; [reflexivity|]. intros H.
  specialize (H [] "page.md"%string (str "/a/b")). cbv in H. discriminate.
Qed.

(** C8 (amended). The first step of the calculation strips every leading
    slash of the target: a target made of [k] slashes followed by [rest],
    where [rest] does not begin with a slash, is continued with as [rest];
    for [k = 1] this is the target with exactly its first slash removed. *)
Theorem C8_strips_every_leading_slash (dirs : list string) (name : string)
        (k : nat) (rest : text) :
  startswith (str "/") rest = false ->
  lstrip "/" (repeat "/" k ++ rest) = rest
  /\ calculate_relative_path (md_file dirs name) (repeat "/" k ++ rest)
     = inr (repeat_text (str "../") (length dirs) ++ rest)
  /\ calculate_relative_path (md_file dirs name) ("/" :: rest)
     = inr (repeat_text (str "../") (length dirs) ++ rest).
Proof.
  intros H. split; [now apply lstrip_slashes|]. split.
  - rewrite calculate_relative_path_md. unfold relative. now rewrite lstrip_slashes.
  - now rewrite calculate_relative_path_md, relative_one.
Qed.

Lemma C8_witness :
  lstrip "/" (str "///a//b") = str "a//b"
  /\ calculate_relative_path (md_file ["docs"%string] "a.md") (str "///a//b")
     = inr (str "../a//b")
  /\ calculate_relative_path (md_file ["docs"%string] "a.md") (str "/a//b")
     = inr (str "../a//b").
Proof.
  exact (@C8_strips_every_leading_slash ["docs"%string] "a.md"%string 3 (str "a//b") eq_refl).
Defined.

(** C9. The calculation removes every leading slash of the target, not just
    one: whatever the target and the file, what is appended after the [../]
    prefix is the target without its leading slashes and never begins with a
    slash; a file directly in the content root with the link [[x](//a/b)] is
    rewritten to [[x](a/b)]. *)
Theorem C9_suffix_never_begins_with_slash (p : Path) (target : text) :
  startswith (str "/") (lstrip "/" target) = false
  /\ (forall dirs name, p = md_file dirs name ->
        calculate_relative_path p target
        = inr (repeat_text (str "../") (length dirs) ++ lstrip "/" target))
  /\ (forall r, calculate_relative_path p target = inr r ->
        exists d, r = repeat_text (str "../") d ++ lstrip "/" target)
  /\ fix_links_text (md_file [] "page.md") (str "[x](//a/b)") = inr (str "[x](a/b)", 1).
Proof.
  split; [apply lstrip_no_slash|]. split; [|split].
  - intros dirs name ->. apply calculate_relative_path_md.
  - intros r. unfold calculate_relative_path.
    destruct (relative_to (parent p) content_root) as [e|from_dir]; [discriminate|].
    destruct (Nat.eqb (length from_dir) 0) eqn:E; intros H; inversion H; subst.
    + exists 0. reflexivity.
    + exists (length from_dir). reflexivity.
  - vm_compute. reflexivity.
Qed.

Lemma C9_witness :
  calculate_relative_path (md_file ["docs"%string] "a.md") (str "//a/b") = inr (str "../a/b")
  /\ exists d, str "../a/b" = repeat_text (str "../") d ++ lstrip "/" (str "//a/b").
Proof.
  pose proof (@C9_suffix_never_begins_with_slash (md_file ["docs"%string] "a.md") (str "//a/b"))
    as (_ & H1 & H2 & _).
  split.
  - exact (H1 ["docs"%string] "a.md"%string eq_refl).
  - exact (H2 (str "../a/b") eq_refl).
Defined.

(** ** The claims about files and the run *)






(** The other way into C5: the file is read and a link is rewritten, but
    the file cannot be written. *)
Example C5_write_error :
  fix_links_in_file (md_file [] "a.md")
    {| fs := [(md_file [] "a.md",
               File {| data := Text (str "[x](/a/b)"); readable := true;
                       writable := false |})];
       console := []; written := [] |}
  = (inr 0,
     {| fs := [(md_file [] "a.md",
                File {| data := Text (str "[x](/a/b)"); readable := true;
                        writable := false |})];
        console := [Fixed (str "/a/b") (str "a/b");
                    ErrorProcessing (md_file [] "a.md") PermissionError];
        written := [] |}).
Proof. vm_compute. reflexivity. Qed.

(** C6. If the content root does not exist, the run prints
    [Content directory not found] and ends with exit status 1; nothing else
    is printed, no file is read or written, and the file system is what it
    was. *)
Theorem C6_missing_content_root (w : World) :
  lookup content_root (fs w) = None ->
  run_script w = (1, say w [ContentDirNotFound content_root])
  /\ fs (snd (run_script w)) = fs w
  /\ written (snd (run_script w)) = written w.
Proof.
  intros H.
  assert (Hr : run_script w = (1, say w [ContentDirNotFound content_root])).
  { unfold run_script, main, bind at 1, path_exists. rewrite H. cbn [negb].
    unfold bind at 1. unfold bind at 1. rewrite print_say. reflexivity. }
  rewrite Hr. auto.
Qed.

Lemma C6_witness :
  run_script no_world = (1, say no_world [ContentDirNotFound content_root]).
Proof. exact (proj1 (@C6_missing_content_root no_world eq_refl)). Defined.

(** ** The automaton of one attempt *)

Lemma run_cons q c s : run q (c :: s) = run (step q c) s.
Proof. reflexivity. Qed.

Lemma run_app q a b : run q (a ++ b) = run (run q a) b.
Proof. apply fold_left_app. Qed.

Lemma run_Acc s : run Acc s = Acc.
Proof. induction s as [|c s IH]; [reflexivity | exact IH]. Qed.

Lemma run_Rej s : run Rej s = Rej.
Proof. induction s as [|c s IH]; [reflexivity | exact IH]. Qed.

Lemma run_T1_text t : ~ In "]" t -> run T1 t = T1.
Proof.
  induction t as [|c t IH]; intros H; [reflexivity|]. cbn in *.
  destruct (Ascii.eqb_spec c "]"); [subst; tauto | apply IH; tauto].
Qed.

Lemma run_T0_text t : ~ In "]" t -> run T0 t = match t with [] => T0 | _ => T1 end.
Proof.
  destruct t as [|c t]; intros H; [reflexivity|]. cbn in *.
  destruct (Ascii.eqb_spec c "]"); [subst; tauto | apply run_T1_text; tauto].
Qed.

Lemma run_U1_url u : ~ In ")" u -> run U1 u = U1.
Proof.
  induction u as [|c u IH]; intros H; [reflexivity|]. cbn in *.
  destruct (Ascii.eqb_spec c ")"); [subst; tauto | apply IH; tauto].
Qed.

Lemma run_U0_url u : ~ In ")" u -> run U0 u = match u with [] => U0 | _ => U1 end.
Proof.
  destruct u as [|c u]; intros H; [reflexivity|]. cbn in *.
  destruct (Ascii.eqb_spec c ")"); [subst; tauto | apply run_U1_url; tauto].
Qed.

Lemma run_U1_close x : In ")" x -> run U1 x = Acc.
Proof.
  induction x as [|c x IH]; intros H; [destruct H|]. cbn.
  destruct (Ascii.eqb_spec c ")"); [apply run_Acc|].
  apply IH. destruct H; [congruence | assumption].
Qed.

Lemma run_Sl_no_slash x : startswith (str "/") x = false -> run Sl x <> Acc.
Proof.
  destruct x as [|c x]; [discriminate|]. unfold str.
  cbn [list_ascii_of_string startswith]. rewrite andb_true_r, Ascii.eqb_sym.
  intros H. rewrite run_cons. cbn [step]. rewrite H, run_Rej. discriminate.
Qed.

(** A link takes an attempt that is still alive, and not between the
    display text and the URL, to success. *)
Lemma run_link q t u' :
  t <> [] -> ~ In "]" t -> u' <> [] -> ~ In ")" u' ->
  q <> P -> q <> Sl -> q <> Rej ->
  run q (link t ("/" :: u')) = Acc.
Proof.
  intros Ht Hnt Hu Hnu HP HSl HRej. unfold link.
  assert (HK : run T1 ("]" :: "(" :: ("/" :: u') ++ [")"]) = Acc).
  { cbn [app]. rewrite !run_cons. cbn [step Ascii.eqb Bool.eqb].
    rewrite run_app, run_U0_url by assumption. destruct u'; [congruence | reflexivity]. }
  assert (Hin : In ")" (t ++ "]" :: "(" :: ("/" :: u') ++ [")"])).
  { apply in_or_app. right. cbn. right. right. right. apply in_or_app. right. now left. }
  destruct q; try congruence; rewrite run_cons; cbn [step Ascii.eqb Bool.eqb].
  - rewrite run_app, run_T0_text by assumption. destruct t; [congruence | exact HK].
  - rewrite run_app, run_T1_text by assumption. exact HK.
  - rewrite run_app, run_T1_text by assumption. exact HK.
  - now apply run_U1_close.
  - now apply run_U1_close.
  - apply run_Acc.
Qed.

Lemma link_at_run s t u r : link_at s = Some (t, u, r) -> run S0 s = Acc.
Proof.
  intros H. apply link_at_Some in H as (u' & -> & -> & Ht & Hnt & Hu & Hnu).
  rewrite run_app, run_link by (assumption || discriminate). apply run_Acc.
Qed.

Lemma not_char_false c x : not_char c x = false -> x = c.
Proof. unfold not_char. now destruct (Ascii.eqb_spec x c). Qed.

Lemma run_link_at s : run S0 s = Acc -> link_at s <> None.
Proof.
  unfold link_at. destruct s as [|c s1]; [discriminate|].
  rewrite run_cons. cbn [step].
  destruct (Ascii.eqb c "["); [|rewrite run_Rej; discriminate].
  pose proof (span_app (not_char "]") s1) as Ha.
  pose proof (span_all (not_char "]") s1) as Hta.
  pose proof (@span_stop (not_char "]") s1) as Hsa.
  destruct (span (not_char "]") s1) as [t s2]. cbn [fst snd] in *.
  apply not_char_all in Hta. rewrite <- Ha, run_app, run_T0_text by assumption.
  destruct s2 as [|c1 s2].
  { destruct t; discriminate. }
  specialize (Hsa c1 s2 eq_refl). apply not_char_false in Hsa. subst c1.
  destruct t as [|x t]; [rewrite run_cons, run_Rej; discriminate|].
  rewrite run_cons. change (step T1 "]") with P.
  destruct s2 as [|c2 s2]; [discriminate|]. rewrite run_cons. cbn [step].
  destruct (Ascii.eqb c2 "("); [|rewrite run_Rej; discriminate].
  destruct s2 as [|c3 s3]; [discriminate|]. rewrite run_cons. cbn [step].
  destruct (Ascii.eqb c3 "/"); [|rewrite run_Rej; discriminate].
  cbn [andb Ascii.eqb Bool.eqb].
  pose proof (span_app (not_char ")") s3) as Hb.
  pose proof (span_all (not_char ")") s3) as Hub.
  pose proof (@span_stop (not_char ")") s3) as Hsb.
  destruct (span (not_char ")") s3) as [u s4]. cbn [fst snd] in *.
  apply not_char_all in Hub. rewrite <- Hb, run_app, run_U0_url by assumption.
  destruct s4 as [|c4 s5].
  { destruct u; discriminate. }
  specialize (Hsb c4 s5 eq_refl). apply not_char_false in Hsb. subst c4.
  destruct u as [|y u]; [rewrite run_cons, run_Rej; discriminate|].
  discriminate.
Qed.

(** ** A second pass *)

Lemma matched_urls_lit c s :
  link_at (c :: s) = None -> matched_urls (c :: s) = matched_urls s.
Proof. intros E. unfold matched_urls. now rewrite scan_cons, E. Qed.

Lemma matched_urls_hit s t u r :
  link_at s = Some (t, u, r) -> matched_urls s = u :: matched_urls r.
Proof.
  intros E. unfold matched_urls. destruct s as [|c s]; [discriminate|].
  now rewrite scan_cons, E.
Qed.

(** An attempt that fails on a text fails on the rewritten text: the
    attempt has not reached a link of the text, or has failed before the
    part of it that changes. *)
Lemma run_rewrite d s : forall q,
  run q s <> Acc -> run q (fst (rewrite_text d s)) <> Acc.
Proof.
  induction s as [| c s E IH | s t u r E IH] using scan_ind; intros q H.
  - exact H.
  - rewrite (rewrite_text_lit d _ _ E). cbn [fst]. rewrite run_cons in *. now apply IH.
  - rewrite rewrite_text_hit with (1 := E). cbn [fst].
    apply link_at_Some in E as (u' & -> & -> & Ht & Hnt & Hu & Hnu).
    rewrite run_app in H.
    assert (Hq : q = P \/ q = Sl \/ q = Rej).
    { destruct q; auto; exfalso; apply H;
        rewrite run_link by (assumption || discriminate); apply run_Acc. }
    unfold render, link. rewrite <- app_comm_cons, run_cons.
    destruct Hq as [-> | [-> | ->]]; cbn [step Ascii.eqb Bool.eqb];
      rewrite run_Rej; discriminate.
Qed.

Lemma In_lstrip x c s : In x (lstrip c s) -> In x s.
Proof.
  induction s as [|y s IH]; [auto|]. cbn [lstrip].
  destruct (Ascii.eqb y c); [right; auto | auto].
Qed.

Lemma relative_no_open d u : ~ In "[" u -> ~ In "[" (relative d u).
Proof.
  intros H Hin. unfold relative in Hin. apply in_app_or in Hin as [Hin | Hin].
  - induction d as [|d IH]; [destruct Hin|]. cbn in Hin.
    destruct Hin as [E | [E | [E | Hin]]]; try discriminate. auto.
  - apply H. eapply In_lstrip, Hin.
Qed.

Lemma relative_no_slash d u x :
  startswith (str "/") x = false ->
  startswith (str "/") (relative d u ++ x) = false.
Proof.
  intros Hx. unfold relative. destruct d as [|d]; [|reflexivity]. cbn [repeat_text app].
  pose proof (lstrip_no_slash u) as H.
  destruct (lstrip "/" u); [exact Hx | exact H].
Qed.

Lemma quiet_no_open y w : ~ In "[" y -> quiet w -> quiet (y ++ w).
Proof.
  induction y as [|c y IH]; intros H Hw; [exact Hw|]. cbn [app quiet]. split.
  - rewrite run_cons. cbn [step].
    destruct (Ascii.eqb_spec c "["); [subst; exfalso; apply H; now left|].
    rewrite run_Rej. discriminate.
  - apply IH; [|exact Hw]. intros Hin. apply H. now right.
Qed.

Lemma quiet_text t K :
  ~ In "]" t -> run T0 K <> Acc -> run T1 K <> Acc -> quiet K -> quiet (t ++ K).
Proof.
  induction t as [|c t IH]; intros H H0 H1 HK; [exact HK|]. cbn [app quiet]. split.
  - rewrite run_cons. cbn [step]. destruct (Ascii.eqb c "["); [|rewrite run_Rej; discriminate].
    rewrite run_app, run_T0_text by (intros Hin; apply H; now right).
    destruct t; assumption.
  - apply IH; auto. intros Hin. apply H. now right.
Qed.

(** Nothing matches inside a rewritten link whose URL has no [[]. *)
Lemma quiet_render d t u w :
  ~ In "]" t -> ~ In "[" u -> quiet w -> quiet (render d t u ++ w).
Proof.
  intros Hnt Hnu Hw. unfold render, link.
  set (rel := relative d u).
  assert (Hrel : startswith (str "/") (rel ++ ")" :: w) = false)
    by (apply relative_no_slash; reflexivity).
  assert (HSl : run Sl (rel ++ ")" :: w) <> Acc) by now apply run_Sl_no_slash.
  assert (HK : quiet ("]" :: "(" :: rel ++ ")" :: w)).
  { cbn [quiet]. split; [rewrite run_cons, run_Rej; discriminate|].
    split; [rewrite run_cons, run_Rej; discriminate|].
    apply quiet_no_open; [now apply relative_no_open|].
    cbn [quiet]. split; [rewrite run_cons, run_Rej; discriminate | exact Hw]. }
  replace (("[" :: t ++ "]" :: "(" :: rel ++ [")"]) ++ w)
    with (("[" :: t) ++ "]" :: "(" :: rel ++ ")" :: w) by now lnorm.
  apply quiet_text.
  - intros [E | Hin]; [discriminate | auto].
  - rewrite run_cons, run_Rej. discriminate.
  - rewrite !run_cons. exact HSl.
  - exact HK.
Qed.

(** After a pass over a text whose rewritten URLs hold no [[], nothing
    matches any more. *)
Lemma quiet_rewrite d s :
  Forall (fun u => ~ In "[" u) (matched_urls s) -> quiet (fst (rewrite_text d s)).
Proof.
  induction s as [| c s E IH | s t u r E IH] using scan_ind; intros H.
  - exact I.
  - rewrite (rewrite_text_lit d _ _ E). cbn [fst quiet].
    rewrite (matched_urls_lit _ _ E) in H. split; [|now apply IH].
    rewrite run_cons. apply run_rewrite. rewrite <- run_cons.
    intros Hacc. now apply run_link_at in Hacc.
  - rewrite rewrite_text_hit with (1 := E). cbn [fst].
    rewrite matched_urls_hit with (1 := E) in H. inversion H; subst.
    apply link_at_Some in E as (u' & -> & _ & _ & Hnt & _).
    apply quiet_render; auto.
Qed.

Lemma quiet_fixed d x : quiet x -> rewrite_text d x = (x, 0).
Proof.
  induction x as [|c x IH]; intros H; [reflexivity|]. destruct H as [H Hx].
  assert (E : link_at (c :: x) = None).
  { destruct (link_at (c :: x)) as [[[t u] r]|] eqn:E; [|reflexivity].
    exfalso. apply H. eapply link_at_run, E. }
  rewrite (rewrite_text_lit d _ _ E), (IH Hx). reflexivity.
Qed.

(** ** The claim about a second pass *)

(** C3, refuted as stated. At depth 0 the text [[a](/x[y](/z)] is rewritten
    to [[a](x[y](/z)]: the pattern takes [/x[y](/z] for the URL. A second
    pass over that output finds the link [[y](/z)] in it and rewrites
    it, so the second pass makes one more replacement. *)
Lemma C3_counterexample :
  fix_links_text (md_file [] "page.md") (str "[a](/x[y](/z)")
    = inr (str "[a](x[y](/z)", 1)
  /\ fix_links_text (md_file [] "page.md") (str "[a](x[y](/z)")
    = inr (str "[a](x[y](z)", 1)
  /\ ~ (forall p s s' n,
          fix_links_text p s = inr (s', n) -> fix_links_text p s' = inr (s', 0)).
Proof.
  split; [vm_compute; reflexivity|]. split; [vm_compute; reflexivity|].
  intros H.
  specialize (H (md_file [] "page.md") (str "[a](/x[y](/z)") (str "[a](x[y](/z)") 1).
  vm_compute in H. specialize (H eq_refl). discriminate.
Qed.

(** C3 (amended). No URL produced by a rewrite begins with a slash, and the
    per-file rewrite is idempotent on every text in which no rewritten
    link has a [[] in its URL: applied to its own output it returns that
    output unchanged, with zero replacements. *)
Theorem C3_idempotent_without_bracket_in_url (dirs : list string) (name : string)
        (s s' : text) (n : nat) :
  Forall (fun u => ~ In "[" u) (matched_urls s) ->
  fix_links_text (md_file dirs name) s = inr (s', n) ->
  fix_links_text (md_file dirs name) s' = inr (s', 0)
  /\ (forall target r,
        calculate_relative_path (md_file dirs name) target = inr r ->
        startswith (str "/") r = false).
Proof.
  intros Hs H. split.
  - rewrite fix_links_text_md in *. inversion H as [H1].
    assert (Hs' : s' = fst (rewrite_text (length dirs) s)) by now rewrite H1.
    rewrite Hs'. f_equal. apply quiet_fixed. now apply quiet_rewrite.
  - intros target r Hr. rewrite calculate_relative_path_md in Hr. inversion Hr; subst.
    rewrite <- (app_nil_r (relative _ _)). now apply relative_no_slash.
Qed.

Lemma C3_witness :
  fix_links_text (md_file ["docs"%string] "a.md")
    (str "[a](../x) and [b](../y/z), [c](http://e.org/[1])")
  = inr (str "[a](../x) and [b](../y/z), [c](http://e.org/[1])", 0).
Proof.
  refine (proj1 (@C3_idempotent_without_bracket_in_url ["docs"%string] "a.md"%string
            (str "[a](/x) and [b](//y/z), [c](http://e.org/[1])")
            (str "[a](../x) and [b](../y/z), [c](http://e.org/[1])") 2 _ _)).
  - vm_compute. repeat constructor; cbn; intuition discriminate.
  - vm_compute. reflexivity.
Defined.

(** ** What a pass may change *)

Lemma edits_refl up s : edits up s s.
Proof. induction s; constructor; assumption. Qed.

Lemma edits_app_copy up a s o : edits up s o -> edits up (a ++ s) (a ++ o).
Proof. intros H. induction a; [exact H | now constructor]. Qed.

Lemma lstrip_repeat s : exists k, s = repeat "/" k ++ lstrip "/" s.
Proof.
  induction s as [|c s [k IH]]; [now exists 0|]. cbn [lstrip].
  destruct (Ascii.eqb_spec c "/").
  - subst c. exists (S k). cbn. now rewrite <- IH.
  - now exists 0.
Qed.

(** A pass only puts [../]s in the place of runs of slashes that follow [](]. *)
Lemma edits_rewrite d s :
  edits (repeat_text (str "../") d) s (fst (rewrite_text d s)).
Proof.
  induction s as [| c s E IH | s t u r E IH] using scan_ind.
  - constructor.
  - rewrite (rewrite_text_lit d _ _ E). now constructor.
  - rewrite rewrite_text_hit with (1 := E). cbn [fst].
    apply link_at_Some in E as (u' & -> & -> & _).
    unfold render, relative, link. cbn [lstrip Ascii.eqb Bool.eqb].
    destruct (lstrip_repeat u') as [k Hk]. rewrite Hk at 1.
    set (up := repeat_text (str "../") d).
    replace (("[" :: t ++ "]" :: "(" :: ("/" :: repeat "/" k ++ lstrip "/" u') ++ [")"]) ++ r)
      with (("[" :: t) ++ "]" :: "(" :: "/" :: repeat "/" k ++ (lstrip "/" u' ++ ")" :: r))
      by now lnorm.
    replace (("[" :: t ++ "]" :: "(" :: (up ++ lstrip "/" u') ++ [")"])
               ++ fst (rewrite_text d r))
      with (("[" :: t) ++ "]" :: "(" :: up ++ (lstrip "/" u' ++ ")" :: fst (rewrite_text d r)))
      by now lnorm.
    apply edits_app_copy, edits_site, edits_app_copy, edits_copy, IH.
Qed.

Lemma clear_of_sites_app x y k :
  clear_of_sites x (y ++ k) = true -> clear_of_sites y k = true ->
  clear_of_sites (x ++ y) k = true.
Proof.
  intros Hx Hy. induction x as [|c x IH]; [exact Hy|].
  cbn [clear_of_sites app] in *. apply andb_prop in Hx as [H1 H2].
  rewrite <- app_assoc. cbn [app] in *. rewrite H1. cbn [andb]. now apply IH.
Qed.

Lemma startswith_site_close x k :
  x <> [] -> startswith (str "](/") x = false ->
  startswith (str "](/") (x ++ "]" :: k) = false.
Proof.
  intros Hx H. destruct x as [|a [|b [|c x]]]; [congruence| | |].
  - unfold str. cbn [app list_ascii_of_string startswith].
    destruct (Ascii.eqb "]" a); reflexivity.
  - unfold str. cbn [app list_ascii_of_string startswith].
    destruct (Ascii.eqb "]" a), (Ascii.eqb "(" b); reflexivity.
  - exact H.
Qed.

(** A display text that does not hold [](/] has no place where a rewrite
    could begin, when the []] of its link follows it. *)
Lemma clear_of_sites_display t k :
  has_infix (str "](/") t = false -> clear_of_sites t ("]" :: k) = true.
Proof.
  induction t as [|c t IH]; intros H; [reflexivity|].
  cbn [has_infix] in H. apply orb_false_elim in H as [H1 H2].
  cbn [clear_of_sites]. rewrite (IH H2), andb_true_r.
  rewrite startswith_site_close; [reflexivity | discriminate | exact H1].
Qed.

Lemma startswith_app_close p u k :
  ~ In ")" p -> startswith p u = false -> startswith p (u ++ ")" :: k) = false.
Proof.
  revert u. induction p as [|a p IH]; intros u Hp H; [discriminate|].
  destruct u as [|b u]; cbn [app startswith] in *.
  - destruct (Ascii.eqb_spec a ")"); [subst; exfalso; apply Hp; now left | reflexivity].
  - destruct (Ascii.eqb a b); [|reflexivity]. cbn [andb] in *.
    apply IH; [|exact H]. intros Hin. apply Hp. now right.
Qed.

Lemma clear_of_sites_url u k :
  has_infix (str "](/") u = false -> clear_of_sites u (")" :: k) = true.
Proof.
  induction u as [|c u IH]; intros H; [reflexivity|].
  cbn [has_infix] in H. apply orb_false_elim in H as [H1 H2].
  cbn [clear_of_sites]. rewrite (IH H2), andb_true_r.
  rewrite startswith_app_close; [reflexivity | | exact H1].
  cbn. intuition discriminate.
Qed.

(** A link that does not hold [](/], neither in its display text nor in its
    URL, and whose URL does not start with a slash, has no place where a
    rewrite could begin. *)
Lemma clear_of_sites_link t u k :
  has_infix (str "](/") t = false ->
  startswith (str "/") u = false -> has_infix (str "](/") u = false ->
  clear_of_sites (link t u) k = true.
Proof.
  intros Ht Hu Hi. unfold link.
  change ("[" :: t ++ "]" :: "(" :: u ++ [")"])
    with (["["] ++ t ++ ["]"; "("] ++ u ++ [")"]).
  apply clear_of_sites_app; [reflexivity|].
  apply clear_of_sites_app; [now apply clear_of_sites_display|].
  apply clear_of_sites_app; [|apply clear_of_sites_app].
  - assert (E : forall x, startswith (str "](/") ("]" :: "(" :: x) = startswith (str "/") x)
      by reflexivity.
    assert (Hu' : startswith (str "/") ((u ++ [")"]) ++ k) = false).
    { destruct u as [|c u]; [reflexivity | exact Hu]. }
    cbn [clear_of_sites app]. rewrite E, Hu'. reflexivity.
  - cbn [app]. now apply clear_of_sites_url.
  - reflexivity.
Qed.

Lemma edits_inside up x : forall k o,
  clear_of_sites x k = true -> edits up (x ++ k) o ->
  exists o', o = x ++ o' /\ edits up k o'.
Proof.
  induction x as [|c x IH]; intros k o Hc H; [now exists o|].
  cbn [clear_of_sites] in Hc. apply andb_prop in Hc as [H1 H2].
  cbn [app] in *. inversion H as [| c' s' o1 Hs | k' s' o1 Hs]; subst.
  - destruct (IH _ _ H2 Hs) as (o' & -> & Ho'). now exists o'.
  - match goal with Hq : _ = x ++ k |- _ => rewrite <- Hq in H1 end. discriminate.
Qed.

Lemma slashes_before_open k : forall s pre y,
  repeat "/" k ++ s = pre ++ "[" :: y ->
  exists pre', pre = repeat "/" k ++ pre' /\ s = pre' ++ "[" :: y.
Proof.
  induction k as [|k IH]; intros s pre y H; [now exists pre|].
  cbn [repeat app] in H. destruct pre as [|c pre]; [discriminate|].
  inversion H; subst. destruct (IH _ _ _ H2) as (pre' & -> & ->). now exists pre'.
Qed.

(** A link with no place for a rewrite to begin is still there, where it
    was, after any edits of the text around it. *)
Lemma edits_keep_link up s o :
  edits up s o ->
  forall pre y post,
    s = pre ++ ("[" :: y) ++ post -> clear_of_sites ("[" :: y) post = true ->
    exists pre' post',
      o = pre' ++ ("[" :: y) ++ post' /\ edits up pre pre' /\ edits up post post'.
Proof.
  induction 1 as [| c s o H IH | k s o H IH]; intros pre y post E Hc.
  - destruct pre; discriminate.
  - destruct pre as [|c' pre].
    + cbn [app] in E. injection E as -> ->.
      destruct (@edits_inside up ("[" :: y) post ("[" :: o) Hc) as (o' & Ho & He).
      { now constructor. }
      exists [], o'. split; [exact Ho|]. split; [constructor | exact He].
    + cbn [app] in E. injection E as -> ->.
      destruct (IH _ _ _ eq_refl Hc) as (pre' & post' & -> & Hpre & Hpost).
      exists (c' :: pre'), post'. split; [reflexivity|]. split; [now constructor | exact Hpost].
  - destruct pre as [|c1 [|c2 [|c3 pre]]]; try discriminate.
    cbn [app] in E. injection E as <- <- <- E.
    destruct (slashes_before_open _ _ _ _ E) as (pre' & -> & ->).
    destruct (IH pre' y post eq_refl Hc) as (pre'' & post' & -> & Hpre & Hpost).
    exists ("]" :: "(" :: up ++ pre''), post'. split; [now lnorm|].
    split; [now constructor | exact Hpost].
Qed.

Lemma matched_urls_absolute s :
  Forall (fun url => startswith (str "/") url = true
                     /\ EXTERNAL_LINK_PATTERN_match url = false)
         (matched_urls s).
Proof.
  induction s as [| c s E IH | s t u r E IH] using scan_ind.
  - constructor.
  - now rewrite (matched_urls_lit _ _ E).
  - rewrite matched_urls_hit with (1 := E).
    apply link_at_Some in E as (u' & -> & _). constructor; [|exact IH].
    split; reflexivity.
Qed.

(** ** The claim about the links that are not rewritten *)

(** C2, refuted as stated. The text [[b](http://e[t](/y)] is a link whose
    URL, [http://e[t](/y], starts with [http://]; its display text has no
    []] and its URL no [)].  The pattern does not match at its [[], but it
    matches [[t](/y)] inside its URL, and the rewrite makes that [[t](y)]:
    the external link is not in the output as it was in the input. *)
Lemma C2_counterexample :
  EXTERNAL_LINK_PATTERN_match (str "http://e[t](/y") = true
  /\ ~ In "]" (str "b")
  /\ ~ In ")" (str "http://e[t](/y")
  /\ fix_links_text (md_file [] "page.md") (link (str "b") (str "http://e[t](/y"))
     = inr (str "[b](http://e[t](y)", 1)
  /\ ~ (exists pre' post',
          str "[b](http://e[t](y)" = pre' ++ link (str "b") (str "http://e[t](/y") ++ post').
Proof.
  split; [reflexivity|].
  split; [cbn; intuition discriminate|].
  split; [cbn; intuition discriminate|].
  split; [vm_compute; reflexivity|].
  intros (pre' & post' & H). apply (f_equal (@length ascii)) in H.
  rewrite !length_app, link_length in H. cbn in H. lia.
Qed.

(** The display text of a link can hold a link of its own, as a linked
    image does: the pattern matches the image, and the rewrite changes the
    display text of the outer link, whose URL is external. *)
Example image_in_display_text :
  fix_links_text (md_file [] "page.md") (link (str "![i](/i.png)") (str "http://e.org"))
  = inr (link (str "![i](i.png)") (str "http://e.org"), 1).
Proof. vm_compute. reflexivity. Qed.

(** C2 (amended). The rewrite of a file's text changes only
    absolute-internal links: every link it rewrites has a URL that begins
    with a slash and is not external, and the output is the input with
    [../]s in the place of runs of slashes after [](].  Every link whose URL
    matches [http://], [https://], [mailto:] or [#], and every link whose
    URL does not start with a slash, is in the output as it is in the
    input, between the rewritten text before it and the rewritten text
    after it, whatever text surrounds it, provided neither its display text
    nor its URL holds the three characters [](/] in a row. *)
Theorem C2_other_links_pass_through (dirs : list string) (name : string)
        (pre t u post : text) :
  (EXTERNAL_LINK_PATTERN_match u = true \/ startswith (str "/") u = false) ->
  has_infix (str "](/") t = false ->
  has_infix (str "](/") u = false ->
  (exists pre' post' n,
     fix_links_text (md_file dirs name) (pre ++ link t u ++ post)
     = inr (pre' ++ link t u ++ post', n)
     /\ edits (repeat_text (str "../") (length dirs)) pre pre'
     /\ edits (repeat_text (str "../") (length dirs)) post post')
  /\ (forall s,
        Forall (fun url => startswith (str "/") url = true
                           /\ EXTERNAL_LINK_PATTERN_match url = false)
               (matched_urls s))
  /\ (forall s, exists s' n,
        fix_links_text (md_file dirs name) s = inr (s', n)
        /\ edits (repeat_text (str "../") (length dirs)) s s')
  /\ (forall m k w,
        Re.group2 m = u ->
        replace_link (md_file dirs name) m k w = (inr (Re.group0 m, k), w)).
Proof.
  intros Hu Ht Hi.
  assert (Hu' : startswith (str "/") u = false).
  { destruct Hu as [Hu | Hu]; [now apply external_not_slash | exact Hu]. }
  split; [|split; [|split]].
  - pose proof (edits_rewrite (length dirs) (pre ++ link t u ++ post)) as He.
    destruct (edits_keep_link He pre (t ++ "]" :: "(" :: u ++ [")"]) post eq_refl)
      as (pre' & post' & Ho & Hpre & Hpost).
    { now apply (clear_of_sites_link t u post). }
    exists pre', post', (snd (rewrite_text (length dirs) (pre ++ link t u ++ post))).
    split; [|split; assumption].
    rewrite fix_links_text_md. f_equal.
    rewrite (surjective_pairing (rewrite_text _ _)). f_equal. exact Ho.
  - apply matched_urls_absolute.
  - intros s. exists (fst (rewrite_text (length dirs) s)), (snd (rewrite_text (length dirs) s)).
    split; [|apply edits_rewrite].
    rewrite fix_links_text_md. f_equal. apply surjective_pairing.
  - intros m k w Hm. unfold replace_link. rewrite Hm.
    destruct (EXTERNAL_LINK_PATTERN_match u); [reflexivity|]. now rewrite Hu'.
Qed.

Lemma C2_witness :
  exists pre' post' n,
    fix_links_text (md_file ["docs"%string] "a.md")
      (str "see [a](/x) and " ++ link (str "b [1](c)") (str "http://e.org/[1]")
       ++ str " or [c](/y)")
    = inr (pre' ++ link (str "b [1](c)") (str "http://e.org/[1]") ++ post', n)
    /\ edits (str "../") (str "see [a](/x) and ") pre'
    /\ edits (str "../") (str " or [c](/y)") post'.
Proof.
  refine (proj1 (@C2_other_links_pass_through ["docs"%string] "a.md"%string
            (str "see [a](/x) and ") (str "b [1](c)") (str "http://e.org/[1]")
            (str " or [c](/y)") _ _ _)).
  - left. reflexivity.
  - reflexivity.
  - reflexivity.
Defined.

(** ** Text that is copied *)

Lemma rewrite_text_no_open d y w :
  ~ In "[" y ->
  rewrite_text d (y ++ w) = (y ++ fst (rewrite_text d w), snd (rewrite_text d w)).
Proof.
  induction y as [|c y IH]; intros H.
  - cbn [app]. now destruct (rewrite_text d w).
  - cbn [app]. rewrite rewrite_text_lit.
    + rewrite IH by (intros Hin; apply H; now right). reflexivity.
    + apply link_at_not_open. intros ->. apply H. now left.
Qed.

Lemma in_split_first (x : ascii) l :
  In x l -> exists a b, l = a ++ x :: b /\ ~ In x a.
Proof.
  induction l as [|y l IH]; intros H; [destruct H|].
  destruct (ascii_dec y x) as [->|Hne].
  - exists [], l. split; [reflexivity | intros []].
  - destruct H as [H | H]; [congruence|].
    destruct (IH H) as (a & b & -> & Ha). exists (y :: a), b.
    split; [reflexivity|]. intros [E | E]; [congruence | auto].
Qed.

Lemma first_unique (x : ascii) a : forall a' b b',
  a ++ x :: b = a' ++ x :: b' -> ~ In x a -> ~ In x a' -> a = a' /\ b = b'.
Proof.
  induction a as [|y a IH]; intros a' b b' E Ha Ha'.
  - destruct a' as [|y' a']; cbn [app] in E.
    + injection E as ->. auto.
    + injection E as <- _. exfalso. apply Ha'. now left.
  - destruct a' as [|y' a']; cbn [app] in E.
    + injection E as -> _. exfalso. apply Ha. now left.
    + injection E as -> E. destruct (IH a' b b' E) as [-> ->]; auto.
      * intros Hin. apply Ha. now right.
      * intros Hin. apply Ha'. now right.
Qed.

Lemma closed_suffix x y : closed (x ++ y) = true -> closed y = true.
Proof.
  induction x as [|c x IH]; intros H; [exact H|].
  cbn [app closed] in H. apply andb_prop in H as [_ H]. now apply IH.
Qed.

Lemma lstrip_app_stop c x y z :
  y <> c -> lstrip c (x ++ y :: z) = lstrip c x ++ y :: z.
Proof.
  intros H. induction x as [|a x IH]; cbn [app lstrip].
  - now destruct (Ascii.eqb_spec y c).
  - destruct (Ascii.eqb a c); [exact IH | reflexivity].
Qed.

Lemma startswith_app p x : startswith p (p ++ x) = true.
Proof.
  induction p as [|a p IH]; [reflexivity|]. cbn [app startswith].
  now rewrite Ascii.eqb_refl, IH.
Qed.

Lemma has_infix_intro p pre post : has_infix p (pre ++ p ++ post) = true.
Proof.
  induction pre as [|c pre IH]; cbn [app].
  - destruct (p ++ post) eqn:E; cbn [has_infix]; rewrite <- E, startswith_app; reflexivity.
  - cbn [has_infix]. rewrite IH. apply orb_true_r.
Qed.

(** ** The link with empty display text *)

Lemma empty_link_kept d p post :
  ~ In "[" p ->
  rewrite_text d (link [] ("/" :: p) ++ post)
  = (link [] ("/" :: p) ++ fst (rewrite_text d post), snd (rewrite_text d post)).
Proof.
  intros Hp. unfold link. cbn [app].
  rewrite rewrite_text_lit by reflexivity. cbn [fst snd].
  replace ("]" :: "(" :: "/" :: (p ++ [")"]) ++ post)
    with (("]" :: "(" :: "/" :: p ++ [")"]) ++ post) by now lnorm.
  rewrite rewrite_text_no_open.
  - reflexivity.
  - cbn. intros [E | [E | [E | Hin]]]; try discriminate.
    apply in_app_or in Hin as [Hin | [E | []]]; [auto | discriminate].
Qed.

Lemma closed_keeps_empty_link d p post :
  ~ In "[" p -> ~ In ")" p ->
  forall n pre, length pre <= n -> closed pre = true ->
  exists pre' k,
    rewrite_text d (pre ++ link [] ("/" :: p) ++ post)
    = (pre' ++ link [] ("/" :: p) ++ fst (rewrite_text d post), k).
Proof.
  intros Hp Hp'. induction n as [|n IH]; intros pre Hn Hc.
  { destruct pre; [|cbn in Hn; lia]. exists [], (snd (rewrite_text d post)).
    now apply empty_link_kept. }
  destruct pre as [|c pre1].
  { exists [], (snd (rewrite_text d post)). now apply empty_link_kept. }
  cbn [length] in Hn. cbn [closed] in Hc. apply andb_prop in Hc as [Hc0 Hc1].
  cbn [app].
  destruct (link_at (c :: pre1 ++ link [] ("/" :: p) ++ post)) as [[[t u] r]|] eqn:E.
  2:{ destruct (IH pre1) as (pre' & k & H); [lia | exact Hc1 |].
      exists (c :: pre'), k. rewrite (rewrite_text_lit d _ _ E), H. reflexivity. }
  rewrite rewrite_text_hit with (1 := E).
  apply link_at_Some in E as (u' & -> & E & Ht & Hnt & Hu & Hnu).
  unfold link in E. cbn [app] in E. injection E as -> E.
  cbn [Ascii.eqb Bool.eqb] in Hc0.
  apply existsb_exists in Hc0 as (x & Hx & Hxe). apply Ascii.eqb_eq in Hxe. subst x.
  destruct (in_split_first _ _ Hx) as (a & b & -> & Ha).
  assert (E' : a ++ "]" :: (b ++ ("[" :: "]" :: "(" :: "/" :: p ++ [")"]) ++ post)
               = t ++ "]" :: ("(" :: "/" :: u' ++ ")" :: r)).
  { revert E. lnorm. trivial. }
  apply first_unique in E' as [-> E']; [|assumption|assumption].
  destruct b as [|b1 [|b2 b]]; try discriminate.
  cbn [app] in E'. injection E' as -> -> E'.
  destruct (in_dec ascii_dec ")" b) as [Hin | Hnin].
  - destruct (in_split_first _ _ Hin) as (b3 & b4 & -> & Hb3).
    assert (E'' : b3 ++ ")" :: (b4 ++ ("[" :: "]" :: "(" :: "/" :: p ++ [")"]) ++ post)
                  = u' ++ ")" :: r).
    { revert E'. lnorm. trivial. }
    apply first_unique in E'' as [-> <-]; [|assumption|assumption].
    destruct (IH b4) as (pre' & k & H).
    + rewrite !length_app in Hn. cbn [length] in Hn. rewrite !length_app in Hn.
      cbn [length] in Hn. lia.
    + apply (closed_suffix (t ++ "]" :: "(" :: "/" :: u' ++ [")"])).
      replace ((t ++ "]" :: "(" :: "/" :: u' ++ [")"]) ++ b4)
        with (t ++ "]" :: "(" :: "/" :: u' ++ ")" :: b4) by now lnorm.
      exact Hc1.
    + unfold render, link in H |- *. cbn [app] in H |- *. rewrite H. cbn [fst snd].
      exists ("[" :: t ++ "]" :: "(" :: relative d ("/" :: u') ++ ")" :: pre'), (S k).
      f_equal. now lnorm.
  - assert (E'' : (b ++ "[" :: "]" :: "(" :: "/" :: p) ++ ")" :: post = u' ++ ")" :: r).
    { revert E'. lnorm. trivial. }
    apply first_unique in E'' as [<- <-]; [| |assumption].
    2:{ intros Hin. apply in_app_or in Hin as [Hin | Hin]; [auto|].
        cbn in Hin. destruct Hin as [E0 | [E0 | [E0 | [E0 | Hin]]]];
          try discriminate. auto. }
    exists ("[" :: t ++ "]" :: "(" :: repeat_text (str "../") d ++ lstrip "/" b),
           (S (snd (rewrite_text d post))).
    f_equal. unfold render, relative, link. cbn [lstrip Ascii.eqb Bool.eqb app].
    rewrite lstrip_app_stop by discriminate. now lnorm.
Qed.

(** A link that the pattern does not match, followed by text without [[],
    is copied. *)
Lemma rewrite_text_dead d c y w :
  link_at (c :: y ++ w) = None -> ~ In "[" y ->
  rewrite_text d (c :: y ++ w)
  = (c :: y ++ fst (rewrite_text d w), snd (rewrite_text d w)).
Proof.
  intros E Hy. rewrite (rewrite_text_lit d _ _ E), rewrite_text_no_open by assumption.
  reflexivity.
Qed.

(** C10, refuted as stated. In [[a[](/path)] the pattern matches from the
    first [[], with the display text [a[]: the link [[](/path)] is
    rewritten along with it and is not in the output. *)
Lemma C10_counterexample :
  fix_links_text (md_file [] "page.md") (str "[a[](/path)") = inr (str "[a[](path)", 1)
  /\ ~ (exists pre' post', str "[a[](path)" = pre' ++ str "[](/path)" ++ post').
Proof.
  split; [vm_compute; reflexivity|].
  intros (pre' & post' & H).
  pose proof (has_infix_intro (str "[](/path)") pre' post') as Hi.
  rewrite <- H in Hi. vm_compute in Hi. discriminate.
Qed.

(** C10 (amended). The link pattern requires at least one character of
    display text: it never matches at a [[] that is directly followed by
    []], so a file that is just [[](/path)] is left as it is.  In a longer
    text a link with empty display text [[](/p)] (with no [[] and no [)] in
    [p]) passes through byte-identical whenever every [[] before it is
    followed by a []] before it.  Without that condition it need not: when
    the text before it is [y[t], with no [[] in [y] and no []] in [t], and
    [p] is not empty, the pattern matches from the [[] after [y], with the
    display text [t[], and the URL of the link with empty display text is
    rewritten. *)
Theorem C10_empty_display_text (dirs : list string) (name : string) (pre p post : text) :
  closed pre = true -> ~ In "[" p -> ~ In ")" p ->
  (forall x, Re.match_prefix MARKDOWN_LINK_PATTERN ("[" :: "]" :: x) = None)
  /\ (exists pre' post' n,
        fix_links_text (md_file dirs name) (pre ++ link [] ("/" :: p) ++ post)
        = inr (pre' ++ link [] ("/" :: p) ++ post', n))
  /\ fix_links_text (md_file dirs name) (str "[](/path)") = inr (str "[](/path)", 0)
  /\ (forall y t, ~ In "[" y -> ~ In "]" t -> p <> [] ->
        exists post' n,
          fix_links_text (md_file dirs name) post = inr (post', n)
          /\ fix_links_text (md_file dirs name)
               (y ++ "[" :: t ++ link [] ("/" :: p) ++ post)
             = inr (y ++ "[" :: t
                      ++ link [] (repeat_text (str "../") (length dirs) ++ lstrip "/" p)
                      ++ post',
                    S n)).
Proof.
  intros Hc Hp Hp'. split; [|split; [|split]].
  - intros x. rewrite match_prefix_link_at. reflexivity.
  - destruct (@closed_keeps_empty_link (length dirs) p post Hp Hp' (length pre) pre
                (le_n _) Hc) as (pre' & k & H).
    exists pre', (fst (rewrite_text (length dirs) post)), k.
    rewrite fix_links_text_md. now f_equal.
  - rewrite fix_links_text_md. reflexivity.
  - intros y t Hy Ht Hne.
    exists (fst (rewrite_text (length dirs) post)), (snd (rewrite_text (length dirs) post)).
    rewrite !fix_links_text_md. split; [f_equal; apply surjective_pairing|].
    f_equal. rewrite rewrite_text_no_open by assumption.
    replace ("[" :: t ++ link [] ("/" :: p) ++ post)
      with (link (t ++ ["["]) ("/" :: p) ++ post) by (unfold link; now lnorm).
    assert (Ht1 : t ++ ["["] <> []) by (destruct t; discriminate).
    assert (Ht2 : ~ In "]" (t ++ ["["])).
    { intros Hin. apply in_app_or in Hin as [Hin | [E | []]]; [auto | discriminate]. }
    rewrite rewrite_text_hit with (1 := link_at_link post Ht1 Ht2 Hne Hp').
    cbn [fst snd]. f_equal. f_equal.
    unfold render, relative, link. cbn [lstrip Ascii.eqb Bool.eqb]. now lnorm.
Qed.

Lemma C10_witness :
  (exists pre' post' n,
     fix_links_text (md_file ["docs"%string] "a.md")
       (str "see [a](/x), " ++ link [] (str "/path") ++ str " end")
     = inr (pre' ++ link [] (str "/path") ++ post', n))
  /\ (exists post' n,
        fix_links_text (md_file ["docs"%string] "a.md") (str " end") = inr (post', n)
        /\ fix_links_text (md_file ["docs"%string] "a.md")
             (str "see " ++ "[" :: str "b" ++ link [] (str "/path") ++ str " end")
           = inr (str "see " ++ "[" :: str "b" ++ link [] (str "../path") ++ post', S n)).
Proof.
  destruct (@C10_empty_display_text ["docs"%string] "a.md"%string
              (str "see [a](/x), ") (str "path") (str " end")) as (_ & H2 & _ & H4).
  - reflexivity.
  - cbn. intuition discriminate.
  - cbn. intuition discriminate.
  - split; [exact H2|].
    apply (H4 (str "see ") (str "b")).
    + cbn. intuition discriminate.
    + cbn. intuition discriminate.
    + discriminate.
Defined.

(** ** The mixed-link case *)

(** C7. For a file whose text is the four links [[a](/x)],
    [[b](http://ext.com)], [[c](./y)], [[d](#anchor)] with separators that
    hold no [[] between them, the rewrite changes only the first link (its
    URL becomes the [../]s of the file's depth followed by [x]), leaves the
    other three as they are, and [fix_links_in_file] returns exactly 1. *)
Theorem C7_mixed_links (dirs : list string) (name : string) (sep1 sep2 sep3 : text)
        (w : World) (fs' : filesystem) :
  let p := md_file dirs name in
  let content := str "[a](/x)" ++ sep1 ++ str "[b](http://ext.com)" ++ sep2
                   ++ str "[c](./y)" ++ sep3 ++ str "[d](#anchor)" in
  let content' := str "[a](" ++ repeat_text (str "../") (length dirs) ++ str "x)"
                   ++ sep1 ++ str "[b](http://ext.com)" ++ sep2
                   ++ str "[c](./y)" ++ sep3 ++ str "[d](#anchor)" in
  ~ In "[" sep1 -> ~ In "[" sep2 -> ~ In "[" sep3 ->
  read_file (fs w) p = inr content ->
  write_file (fs w) p content' = inr fs' ->
  fix_links_text p content = inr (content', 1)
  /\ exists w', fix_links_in_file p w = (inr 1, w')
                /\ fs w' = fs' /\ written w' = written w ++ [p].
Proof.
  intros p content content' H1 H2 H3 Hr Hw.
  set (d := length dirs).
  set (K3 := str "[d](#anchor)").
  set (K2 := str "[c](./y)" ++ sep3 ++ K3).
  set (K1 := str "[b](http://ext.com)" ++ sep2 ++ K2).
  assert (E3 : rewrite_text d K3 = (K3, 0)) by reflexivity.
  assert (E2 : rewrite_text d K2 = (K2, 0)).
  { etransitivity.
    - apply (@rewrite_text_dead d "[" (str "c](./y)" ++ sep3) K3 eq_refl).
      intros Hin. apply in_app_or in Hin as [Hin | Hin]; [|auto].
      cbn in Hin. intuition discriminate.
    - rewrite E3. reflexivity. }
  assert (E1 : rewrite_text d K1 = (K1, 0)).
  { etransitivity.
    - apply (@rewrite_text_dead d "[" (str "b](http://ext.com)" ++ sep2) K2 eq_refl).
      intros Hin. apply in_app_or in Hin as [Hin | Hin]; [|auto].
      cbn in Hin. intuition discriminate.
    - rewrite E2. reflexivity. }
  assert (E0 : rewrite_text d content = (content', 1)).
  { assert (E : link_at content = Some (str "a", str "/x", sep1 ++ K1)) by reflexivity.
    rewrite rewrite_text_hit with (1 := E).
    rewrite rewrite_text_no_open, E1 by assumption. cbn [fst snd]. f_equal.
    unfold render, relative, link, content', K1, K2, K3, d, str.
    cbn [list_ascii_of_string lstrip app Ascii.eqb Bool.eqb]. now lnorm. }
  assert (Ht : fix_links_text p content = inr (content', 1)).
  { unfold p. rewrite fix_links_text_md. now f_equal. }
  split; [exact Ht|].
  destruct (fix_links_in_file_spec p w) as [ms H].
  rewrite Hr, Ht, Hw in H. eexists. split; [exact H|]. split; reflexivity.
Qed.

Lemma C7_witness :
  let p := md_file [] "page.md" in
  let w := {| fs := [(p, File {| data := Text (str "[a](/x), [b](http://ext.com), [c](./y), [d](#anchor)");
                                 readable := true; writable := true |})];
              console := []; written := [] |} in
  fix_links_text p (str "[a](/x), [b](http://ext.com), [c](./y), [d](#anchor)")
  = inr (str "[a](x), [b](http://ext.com), [c](./y), [d](#anchor)", 1)
  /\ exists w', fix_links_in_file p w = (inr 1, w')
                /\ fs w' = [(p, File {| data := Text (str "[a](x), [b](http://ext.com), [c](./y), [d](#anchor)");
                                        readable := true; writable := true |})]
                /\ written w' = written w ++ [p].
Proof.
  intros p w.
  refine (@C7_mixed_links [] "page.md"%string (str ", ") (str ", ") (str ", ") w _ _ _ _ _ _).
  - cbn. intuition discriminate.
  - cbn. intuition discriminate.
  - cbn. intuition discriminate.
  - reflexivity.
  - reflexivity.
Defined.

(** * Further properties of the script *)

(** ** The link pattern *)

(** X1. [MARKDOWN_LINK_PATTERN] matches at the start of a text exactly when
    the text starts with [[t](/u)] for a non-empty [t] without []] and a
    non-empty [u] without [)]; group 1 is then [t], group 2 is [/u], group 0
    the whole link, and the match ends at the first [)] after the [(/]. *)
Theorem X1_link_pattern_matches_iff (s : text) (m : Re.Match) (r : text) :
  Re.match_prefix MARKDOWN_LINK_PATTERN s = Some (m, r)
  <-> exists t u',
        t <> [] /\ ~ In "]" t /\ u' <> [] /\ ~ In ")" u'
        /\ s = link t ("/" :: u') ++ r
        /\ Re.group0 m = link t ("/" :: u')
        /\ Re.group1 m = t
        /\ Re.group2 m = "/" :: u'.
Proof.
  rewrite match_prefix_link_at. split.
  - destruct (link_at s) as [[[t u] r0]|] eqn:E; [|discriminate].
    intros H. injection H as <- <-.
    apply link_at_Some in E as (u' & -> & -> & Ht & Hnt & Hu & Hnu).
    exists t, u'. repeat split; assumption.
  - intros (t & u' & Ht & Hnt & Hu & Hnu & -> & H0 & H1 & H2).
    rewrite link_at_link by assumption. f_equal. f_equal.
    destruct m as [g0 g1 g2]. cbn in *. subst. reflexivity.
Qed.

Lemma X1_witness :
  Re.match_prefix MARKDOWN_LINK_PATTERN (str "[see here](/docs/a b) and more")
  = Some (link_match (str "see here") (str "/docs/a b"), str " and more").
Proof.
  apply (proj2 (X1_link_pattern_matches_iff
                  (str "[see here](/docs/a b) and more")
                  (link_match (str "see here") (str "/docs/a b")) (str " and more"))).
  exists (str "see here"), (str "docs/a b").
  repeat split; try discriminate; cbn; intuition discriminate.
Defined.

(** ** Texts that are left alone *)

Lemma no_site_no_link s : has_infix (str "](/") s = false -> link_at s = None.
Proof.
  intros H. destruct (link_at s) as [[[t u] r]|] eqn:E; [|reflexivity].
  apply link_at_Some in E as (u' & -> & -> & _).
  assert (Hi : has_infix (str "](/")
                 (("[" :: t) ++ str "](/" ++ (u' ++ [")"]) ++ r) = true)
    by apply has_infix_intro.
  replace (("[" :: t) ++ str "](/" ++ (u' ++ [")"]) ++ r)
    with (link t ("/" :: u') ++ r) in Hi; [congruence|].
  unfold link, str. cbn [list_ascii_of_string]. now lnorm.
Qed.

Lemma scan_no_site s :
  has_infix (str "](/") s = false ->
  Re.scan MARKDOWN_LINK_PATTERN s = map Re.Lit s.
Proof.
  induction s as [|c s IH]; intros H; [reflexivity|].
  rewrite scan_cons, (no_site_no_link _ H). cbn [map]. f_equal. apply IH.
  cbn [has_infix] in H. now apply orb_false_elim in H.
Qed.

Lemma sub_tokens_lits (S : Type) (repl : Re.Match -> S -> IO (text * S)) s n w :
  sub_tokens repl (map Re.Lit s) n w = (inr (s, n), w).
Proof.
  induction s as [|c s IH]; [reflexivity|].
  cbn [map sub_tokens]. unfold bind. now rewrite IH.
Qed.

(** X2. A text in which the three characters [](/] never occur in a row is
    returned unchanged with count zero, whatever the path of the file; a
    readable file with such a text is not written and nothing is printed. *)
Theorem X2_no_absolute_link_no_change (p : Path) (s : text) (w : World) :
  has_infix (str "](/") s = false ->
  fix_links_text p s = inr (s, 0)
  /\ (read_file (fs w) p = inr s -> fix_links_in_file p w = (inr 0, w)).
Proof.
  intros H. split.
  - unfold fix_links_text, re_sub. now rewrite (scan_no_site _ H), sub_tokens_lits.
  - intros Hr. unfold fix_links_in_file, try_except, bind at 1, read_text.
    rewrite Hr. unfold bind at 1, re_sub.
    rewrite (scan_no_site _ H), sub_tokens_lits. reflexivity.
Qed.

Lemma X2_witness :
  fix_links_text ["elsewhere"%string; "notes.md"%string]
    (str "[a](./x) [b](https://e.org/) (/not a link) [c](#top)")
  = inr (str "[a](./x) [b](https://e.org/) (/not a link) [c](#top)", 0).
Proof.
  exact (proj1 (@X2_no_absolute_link_no_change ["elsewhere"%string; "notes.md"%string]
                  (str "[a](./x) [b](https://e.org/) (/not a link) [c](#top)")
                  no_world eq_refl)).
Defined.

Lemma rewrite_text_count_zero d s :
  snd (rewrite_text d s) = 0 -> fst (rewrite_text d s) = s.
Proof.
  induction s as [| c s E IH | s t u r E IH] using scan_ind.
  - reflexivity.
  - rewrite (rewrite_text_lit d _ _ E). cbn [fst snd]. intros H. now rewrite IH.
  - rewrite rewrite_text_hit with (1 := E). discriminate.
Qed.

Lemma rewrite_text_changes d s :
  fst (rewrite_text d s) = s -> snd (rewrite_text d s) = 0.
Proof.
  induction s as [| c s E IH | s t u r E IH] using scan_ind.
  - reflexivity.
  - rewrite (rewrite_text_lit d _ _ E). cbn [fst snd]. intros H.
    injection H as H. now apply IH.
  - rewrite rewrite_text_hit with (1 := E). cbn [fst snd]. intros H. exfalso.
    apply link_at_Some in E as (u' & -> & -> & _).
    unfold render, link in H. cbn [app] in H. injection H as H.
    assert (H' : t ++ "]" :: "(" :: (relative d ("/" :: u') ++ ")" :: fst (rewrite_text d r))
                 = t ++ "]" :: "(" :: ("/" :: u' ++ ")" :: r)).
    { revert H. lnorm. trivial. }
    apply app_inv_head in H'. injection H' as H'.
    pose proof (relative_no_slash d ("/" :: u') (")" :: fst (rewrite_text d r)) eq_refl) as Hn.
    rewrite H' in Hn. discriminate.
Qed.

(** X3. For a file below the content root the rewritten text equals the
    original text exactly when no link was rewritten: every rewrite of a
    link changes the text, so [fix_links_in_file] never writes back the
    content it has read. *)
Theorem X3_text_changes_iff_fixed (dirs : list string) (name : string)
        (s s' : text) (n : nat) :
  fix_links_text (md_file dirs name) s = inr (s', n) ->
  (s' = s <-> n = 0).
Proof.
  rewrite fix_links_text_md. intros H. injection H as H.
  assert (Hs : s' = fst (rewrite_text (length dirs) s)) by now rewrite H.
  assert (Hn : n = snd (rewrite_text (length dirs) s)) by now rewrite H.
  subst. split; [apply rewrite_text_changes | apply rewrite_text_count_zero].
Qed.

Lemma X3_witness :
  str "[a](../x)" = str "[a](///x)" <-> 1 = 0.
Proof.
  exact (@X3_text_changes_iff_fixed ["docs"%string] "a.md"%string
           (str "[a](///x)") (str "[a](../x)") 1 eq_refl).
Defined.

(** ** What is printed for a file *)

Lemma fixed_msgs_map d toks :
  fixed_msgs d toks = map (fun u => Fixed u (relative d u)) (hit_urls toks).
Proof.
  induction toks as [|[c|m] toks IH]; cbn; [reflexivity | exact IH | now rewrite IH].
Qed.

(** X4. For a readable file below the content root, the count is the number
    of matches of the link pattern in its text, and the script prints one
    [Fixed: old -> new] line per match, in the order of the text, where
    [new] is the [../]s of the file's depth followed by [old] without its
    leading slashes; after them comes [Fixed n links in file] when the
    file was written, the error line when writing failed, and nothing when
    there was no match. *)
Theorem X4_fixed_lines (dirs : list string) (name : string) (w : World) (c : text) :
  let p := md_file dirs name in
  let up := repeat_text (str "../") (length dirs) in
  let lines := map (fun u => Fixed u (up ++ lstrip "/" u)) (matched_urls c) in
  read_file (fs w) p = inr c ->
  exists c' n r w' last,
    fix_links_text p c = inr (c', n)
    /\ n = length (matched_urls c)
    /\ fix_links_in_file p w = (inr r, w')
    /\ console w' = console w ++ lines ++ last
    /\ (n = 0 /\ r = 0 /\ last = []
        \/ 0 < n /\ r = n /\ last = [FixedLinksIn n p]
                 /\ write_file (fs w) p c' = inr (fs w')
        \/ 0 < n /\ r = 0 /\ exists e, last = [ErrorProcessing p e]
                                       /\ write_file (fs w) p c' = inl e).
Proof.
  intros p up lines Hr.
  pose proof (fix_links_in_file_md dirs name w Hr) as H. cbn zeta in H.
  rewrite fixed_msgs_map in H. fold (matched_urls c) in H.
  change (map (fun u => Fixed u (relative (length dirs) u)) (matched_urls c))
    with lines in H.
  assert (Hn : snd (rewrite_text (length dirs) c) = length (matched_urls c))
    by apply rewrite_tokens_count.
  assert (Ht : fix_links_text p c
               = inr (fst (rewrite_text (length dirs) c), snd (rewrite_text (length dirs) c))).
  { unfold p. rewrite fix_links_text_md. f_equal. apply surjective_pairing. }
  exists (fst (rewrite_text (length dirs) c)), (snd (rewrite_text (length dirs) c)).
  destruct (snd (rewrite_text (length dirs) c)) as [|k] eqn:En.
  - exists 0, (say w lines), [].
    split; [exact Ht|]. split; [exact Hn|]. split; [exact H|]. split.
    + cbn. now rewrite app_nil_r.
    + left. auto.
  - destruct (write_file (fs w) (md_file dirs name) (fst (rewrite_text (length dirs) c)))
      as [e|fs'] eqn:Ew.
    + exists 0, (say (say w lines) [ErrorProcessing p e]), [ErrorProcessing p e].
      split; [exact Ht|]. split; [exact Hn|]. split; [exact H|]. split.
      * cbn. now rewrite app_assoc.
      * right. right. split; [lia|]. split; [reflexivity|]. exists e. auto.
    + eexists (S k), _, [FixedLinksIn (S k) p].
      split; [exact Ht|]. split; [exact Hn|]. split; [exact H|]. split.
      * cbn. now rewrite app_assoc.
      * right. left. split; [lia|]. auto.
Qed.

Lemma X4_witness :
  let p := md_file ["docs"%string] "a.md" in
  let w := {| fs := [(p, File {| data := Text (str "[a](/x) and [b](//y/z)");
                                 readable := true; writable := true |})];
              console := []; written := [] |} in
  exists w',
    fix_links_in_file p w = (inr 2, w')
    /\ console w' = [Fixed (str "/x") (str "../x"); Fixed (str "//y/z") (str "../y/z");
                     FixedLinksIn 2 p].
Proof.
  intros p w.
  destruct (@X4_fixed_lines ["docs"%string] "a.md"%string w
              (str "[a](/x) and [b](//y/z)") eq_refl)
    as (c' & n & r & w' & last & Ht & Hn & Hf & Hc & Hcases).
  vm_compute in Hn. subst n.
  destruct Hcases as [(H0 & _) | [(_ & -> & -> & _) | (_ & _ & e & _ & Hw)]].
  - discriminate.
  - exists w'. split; [exact Hf | exact Hc].
  - exfalso. vm_compute in Ht. injection Ht as <-. vm_compute in Hw. discriminate.
Defined.

(** ** A file outside the content root *)

Lemma relative_to_not_prefix a b : is_prefix b a = false -> relative_to a b = inl ValueError.
Proof.
  revert a. induction b as [|o b IH]; intros a H; [discriminate|].
  destruct a as [|x a]; [reflexivity|]. cbn in *.
  destruct (String.eqb o x); [now apply IH | reflexivity].
Qed.

Lemma sub_tokens_no_hit (S : Type) (repl : Re.Match -> S -> IO (text * S)) toks n w :
  hit_urls toks = [] -> exists o, sub_tokens repl toks n w = (inr (o, n), w).
Proof.
  induction toks as [|[c|m] toks IH]; intros H.
  - now exists [].
  - destruct (IH H) as [o Ho]. exists (c :: o). cbn [sub_tokens]. unfold bind.
    now rewrite Ho.
  - discriminate.
Qed.

Lemma sub_tokens_outside p toks n w :
  is_prefix content_root (parent p) = false ->
  Forall good_token toks -> hit_urls toks <> [] ->
  sub_tokens (replace_link p) toks n w = (inl ValueError, w).
Proof.
  intros Hp. induction 1 as [|tok toks Htok _ IH]; intros Hh; [now exfalso; apply Hh|].
  destruct tok as [c|m]; cbn [sub_tokens].
  - unfold bind. now rewrite IH.
  - destruct Htok as (t & u' & ->). unfold bind at 1, replace_link.
    cbn [Re.group0 Re.group1 Re.group2 link_match].
    replace (EXTERNAL_LINK_PATTERN_match ("/" :: u')) with false by reflexivity.
    replace (startswith (str "/") ("/" :: u')) with true by reflexivity.
    cbn [negb]. unfold bind, lift, calculate_relative_path.
    now rewrite relative_to_not_prefix.
Qed.

(** X5. For a file whose directory is not below [website/content] the path
    calculation raises [ValueError] for every target.  [fix_links_in_file]
    catches it: when the text of such a file has a match of the link
    pattern the error line is printed, nothing is written and zero is
    returned; when it has none the call returns zero and prints nothing. *)
Theorem X5_file_outside_content_root (p : Path) (w : World) (c : text) :
  is_prefix content_root (parent p) = false ->
  read_file (fs w) p = inr c ->
  (forall target, calculate_relative_path p target = inl ValueError)
  /\ (matched_urls c <> [] ->
      fix_links_in_file p w = (inr 0, say w [ErrorProcessing p ValueError]))
  /\ (matched_urls c = [] -> fix_links_in_file p w = (inr 0, w)).
Proof.
  intros Hp Hr. split; [|split].
  - intros target. unfold calculate_relative_path. now rewrite relative_to_not_prefix.
  - intros Hm. unfold fix_links_in_file, try_except, bind at 1, read_text.
    rewrite Hr. unfold bind at 1, re_sub.
    rewrite (@sub_tokens_outside p _ 0 w Hp (scan_good c) Hm). reflexivity.
  - intros Hm. unfold fix_links_in_file, try_except, bind at 1, read_text.
    rewrite Hr. unfold bind at 1, re_sub.
    destruct (@sub_tokens_no_hit _ (replace_link p) (Re.scan MARKDOWN_LINK_PATTERN c) 0 w Hm)
      as [o Ho].
    rewrite Ho. reflexivity.
Qed.

Lemma X5_witness :
  let p := ["notes"%string; "todo.md"%string] in
  let w := {| fs := [(p, File {| data := Text (str "[a](/x)"); readable := true;
                                 writable := true |})];
              console := []; written := [] |} in
  fix_links_in_file p w = (inr 0, say w [ErrorProcessing p ValueError]).
Proof.
  intros p w.
  refine (proj1 (proj2 (@X5_file_outside_content_root p w (str "[a](/x)") eq_refl eq_refl)) _).
  vm_compute. discriminate.
Defined.

(** ** The file after it was processed *)

(** X6. When [fix_links_in_file] returns a positive count for a file, the
    file was read, the count is that of the substitution on its text, the
    file was written once, and it then holds the rewritten text: reading it
    again gives the text that the substitution produced. *)
Theorem X6_written_file_reads_back (p : Path) (w w' : World) (k : nat) :
  fix_links_in_file p w = (inr (S k), w') ->
  exists c c',
    read_file (fs w) p = inr c
    /\ fix_links_text p c = inr (c', S k)
    /\ written w' = written w ++ [p]
    /\ read_file (fs w') p = inr c'.
Proof.
  intros H. destruct (fix_links_in_file_spec p w) as [ms Hs]. rewrite H in Hs.
  destruct (read_file (fs w) p) as [e|c] eqn:Er; [discriminate|].
  destruct (fix_links_text p c) as [e|[c' [|n]]] eqn:Et; try discriminate.
  destruct (write_file (fs w) p c') as [e|fs'] eqn:Ew; [discriminate|].
  injection Hs as -> ->. cbn [fs written].
  exists c, c'. split; [reflexivity|]. split; [exact Et|]. split; [reflexivity|].
  eapply read_after_write; eassumption.
Qed.

Lemma X6_witness :
  let p := md_file [] "a.md" in
  let w := {| fs := [(p, File {| data := Text (str "see [x](/a/b)"); readable := true;
                                 writable := true |})];
              console := []; written := [] |} in
  exists w', fix_links_in_file p w = (inr 1, w')
             /\ written w' = [p]
             /\ read_file (fs w') p = inr (str "see [x](a/b)").
Proof.
  intros p w.
  destruct (fix_links_in_file p w) as [r w'] eqn:E.
  assert (Hr : r = inr 1) by (vm_compute in E; now injection E as <- _).
  subst r. exists w'. split; [reflexivity|].
  destruct (@X6_written_file_reads_back p w w' 0 E) as (c & c' & Hc & Ht & Hw & Hread).
  vm_compute in Hc. injection Hc as <-. vm_compute in Ht. injection Ht as <-.
  split; [exact Hw | exact Hread].
Defined.

(** X7. A second call on a file that the first call has rewritten does
    nothing, when no rewritten link of the file had a [[] in its URL: for a
    file below the content root the second call returns zero, writes
    nothing and prints nothing. *)
Theorem X7_second_call_does_nothing (dirs : list string) (name : string)
        (w w' : World) (c : text) (n : nat) :
  let p := md_file dirs name in
  read_file (fs w) p = inr c ->
  Forall (fun u => ~ In "[" u) (matched_urls c) ->
  fix_links_in_file p w = (inr n, w') ->
  0 < n ->
  fix_links_in_file p w' = (inr 0, w').
Proof.
  intros p Hr Hc H Hn.
  pose proof (fix_links_in_file_md dirs name w Hr) as Hs. cbn zeta in Hs.
  fold p in Hs. rewrite H in Hs.
  destruct (snd (rewrite_text (length dirs) c)) as [|k] eqn:Ek.
  { injection Hs as -> _. lia. }
  destruct (write_file (fs w) p (fst (rewrite_text (length dirs) c))) as [e|fs'] eqn:Ew.
  { injection Hs as -> _. lia. }
  assert (Hr' : read_file (fs w') p = inr (fst (rewrite_text (length dirs) c))).
  { injection Hs as _ ->. cbn [fs]. eapply read_after_write; eassumption. }
  pose proof (fix_links_in_file_md dirs name w' Hr') as Hs'. cbn zeta in Hs'.
  fold p in Hs'.
  assert (Hq : rewrite_text (length dirs) (fst (rewrite_text (length dirs) c))
               = (fst (rewrite_text (length dirs) c), 0))
    by now apply quiet_fixed, quiet_rewrite.
  rewrite Hq in Hs'. cbn [fst snd] in Hs'. rewrite Hs'.
  rewrite fixed_msgs_none, say_nil; [reflexivity|].
  fold (rewrite_text (length dirs) (fst (rewrite_text (length dirs) c))).
  now rewrite Hq.
Qed.

Lemma X7_witness :
  let p := md_file ["docs"%string] "a.md" in
  let w := {| fs := [(p, File {| data := Text (str "[a](/x) and [b](//y/z)");
                                 readable := true; writable := true |})];
              console := []; written := [] |} in
  fix_links_in_file p (snd (fix_links_in_file p w))
  = (inr 0, snd (fix_links_in_file p w)).
Proof.
  intros p w.
  refine (@X7_second_call_does_nothing ["docs"%string] "a.md"%string w
            (snd (fix_links_in_file p w)) (str "[a](/x) and [b](//y/z)") 2 _ _ _ _).
  - reflexivity.
  - vm_compute. repeat constructor; cbn; intuition discriminate.
  - vm_compute. reflexivity.
  - lia.
Defined.

(** ** The files that main processes *)

Lemma is_prefix_app a : forall p, is_prefix a p = true -> exists rest, p = a ++ rest.
Proof.
  induction a as [|x a IH]; intros p H; [now exists p|].
  destruct p as [|y p]; [discriminate|]. cbn in H.
  apply andb_prop in H as [E H]. apply String.eqb_eq in E. subst y.
  destruct (IH p H) as [rest ->]. now exists rest.
Qed.

(** X8. Every path that main takes from [rglob] lies below the content
    root and has a name ending in [.md]; for such a file the path
    calculation never raises: it returns one [../] per directory between
    the content root and the file, followed by the target without its
    leading slashes. *)
Theorem X8_processed_files_are_below_root (fs0 : filesystem) (p : Path) :
  In p (md_files content_root fs0) ->
  exists dirs name,
    p = md_file dirs name
    /\ is_md name = true
    /\ forall target,
         calculate_relative_path p target
         = inr (repeat_text (str "../") (length dirs) ++ lstrip "/" target).
Proof.
  unfold md_files. intros H. apply filter_In in H as [_ H].
  apply andb_prop in H as [H Hmd]. apply andb_prop in H as [Hpre Hlen].
  destruct (is_prefix_app _ _ Hpre) as [rest ->].
  apply Nat.ltb_lt in Hlen. rewrite length_app in Hlen.
  destruct (exists_last (l := rest)) as (dirs & name & ->).
  { intros ->. cbn in Hlen. lia. }
  exists dirs, name. split; [reflexivity|]. split.
  - rewrite app_assoc, last_last in Hmd. exact Hmd.
  - intros target. apply calculate_relative_path_md.
Qed.

Lemma X8_witness :
  exists dirs name,
    ["website"; "content"; "guide"; "intro.md"]%string = md_file dirs name
    /\ is_md name = true
    /\ forall target,
         calculate_relative_path ["website"; "content"; "guide"; "intro.md"]%string target
         = inr (repeat_text (str "../") (length dirs) ++ lstrip "/" target).
Proof.
  apply (@X8_processed_files_are_below_root
           [(content_root, Dir);
            (["website"; "content"; "guide"]%string, Dir);
            (["website"; "content"; "guide"; "intro.md"]%string,
             File {| data := Text (str "[a](/x)"); readable := true; writable := true |});
            (["website"; "content"; "guide"; "logo.png"]%string,
             File {| data := Undecodable; readable := true; writable := true |});
            (["website"; "README.md"]%string,
             File {| data := Text (str "[a](/x)"); readable := true; writable := true |})]).
  vm_compute. left. reflexivity.
Defined.

(** ** A link in its context *)

(** X9. The rewrite works link by link: in a text made of a part without
    [[], then a link [[t](/u)] (with [t] non-empty and without []], [u]
    non-empty and without [)]), then any rest, the first part is copied,
    the link gets its relative URL, and the rest is rewritten as it would
    be on its own; the count is one more than that of the rest. *)
Theorem X9_link_in_context (dirs : list string) (name : string) (pre t u' rest : text) :
  ~ In "[" pre -> t <> [] -> ~ In "]" t -> u' <> [] -> ~ In ")" u' ->
  exists rest' n,
    fix_links_text (md_file dirs name) rest = inr (rest', n)
    /\ fix_links_text (md_file dirs name) (pre ++ link t ("/" :: u') ++ rest)
       = inr (pre ++ link t (repeat_text (str "../") (length dirs) ++ lstrip "/" u') ++ rest',
              S n).
Proof.
  intros Hpre Ht Hnt Hu Hnu.
  exists (fst (rewrite_text (length dirs) rest)), (snd (rewrite_text (length dirs) rest)).
  rewrite !fix_links_text_md. split; [f_equal; apply surjective_pairing|].
  f_equal. rewrite rewrite_text_no_open by assumption.
  rewrite rewrite_text_hit with (1 := link_at_link rest Ht Hnt Hu Hnu).
  reflexivity.
Qed.

Lemma X9_witness :
  exists rest' n,
    fix_links_text (md_file ["docs"%string] "a.md") (str " or [q](/r).") = inr (rest', n)
    /\ fix_links_text (md_file ["docs"%string] "a.md")
         (str "See " ++ link (str "the guide") (str "/guide/intro") ++ str " or [q](/r).")
       = inr (str "See " ++ link (str "the guide") (str "../guide/intro") ++ rest', S n).
Proof.
  refine (@X9_link_in_context ["docs"%string] "a.md"%string (str "See ")
            (str "the guide") (str "guide/intro") (str " or [q](/r).") _ _ _ _ _);
    try discriminate; cbn; intuition discriminate.
Defined.

(** ** The run as a whole *)

Lemma reported_app a b : reported (a ++ b) = reported a + reported b.
Proof.
  induction a as [|m a IH]; [reflexivity|]. destruct m; cbn; rewrite IH; lia.
Qed.

Lemma sub_tokens_world_reported p toks : forall n,
  exists ms, reported ms = 0 /\ forall w,
    sub_tokens (replace_link p) toks n w =
    (fst (sub_tokens (replace_link p) toks n no_world), say w ms).
Proof.
  induction toks as [|[x|m] toks IH]; intros n.
  - exists []. split; [reflexivity|]. intros w. cbn. unfold ret. now rewrite say_nil.
  - destruct (IH n) as (ms & Hm & H). exists ms. split; [exact Hm|]. intros w.
    cbn [sub_tokens]. unfold bind. rewrite (H w).
    destruct (sub_tokens (replace_link p) toks n no_world) as [[e|[o k]] w0]; reflexivity.
  - assert (H1 : exists ms1, reported ms1 = 0 /\ forall w,
               replace_link p m n w = (fst (replace_link p m n no_world), say w ms1)).
    { unfold replace_link.
      destruct (EXTERNAL_LINK_PATTERN_match _).
      { exists []. split; [reflexivity|]. intros w. unfold ret. now rewrite say_nil. }
      destruct (negb _).
      { exists []. split; [reflexivity|]. intros w. unfold ret. now rewrite say_nil. }
      unfold bind, lift. destruct (calculate_relative_path p (Re.group2 m)) as [e|r].
      - exists []. split; [reflexivity|]. intros w. now rewrite say_nil.
      - exists [Fixed (Re.group2 m) r]. split; [reflexivity|]. intros w. reflexivity. }
    destruct H1 as (ms1 & Hm1 & H1).
    cbn [sub_tokens]. unfold bind.
    destruct (replace_link p m n no_world) as [[e|[r k]] w0] eqn:E0.
    + exists ms1. split; [exact Hm1|]. intros w. rewrite (H1 w). reflexivity.
    + destruct (IH k) as (ms2 & Hm2 & H2). exists (ms1 ++ ms2).
      split; [rewrite reported_app; lia|]. intros w.
      rewrite (H1 w). cbn [fst]. rewrite (H2 (say w ms1)), say_say.
      assert (Hw0 : w0 = say no_world ms1).
      { specialize (H1 no_world). rewrite E0 in H1. now inversion H1. }
      rewrite Hw0, (H2 (say no_world ms1)).
      destruct (sub_tokens (replace_link p) toks k no_world) as [[e|[o k']] w2];
        reflexivity.
Qed.

Lemma re_sub_world_reported p c :
  exists ms, reported ms = 0 /\ forall w,
    re_sub MARKDOWN_LINK_PATTERN (replace_link p) c 0 w = (fix_links_text p c, say w ms).
Proof. apply sub_tokens_world_reported. Qed.

(** What one file adds to the console reports exactly the count returned. *)
Lemma fix_links_in_file_reported p w :
  exists n delta w',
    fix_links_in_file p w = (inr n, w')
    /\ console w' = console w ++ delta
    /\ reported delta = n.
Proof.
  unfold fix_links_in_file, try_except, bind at 1, read_text.
  destruct (read_file (fs w) p) as [e|c] eqn:Er.
  { rewrite (read_file_Exception _ _ Er).
    exists 0, [ErrorProcessing p e]. eexists. split; [reflexivity|]. split; reflexivity. }
  destruct (re_sub_world_reported p c) as (ms & Hm & H).
  unfold bind at 1. rewrite (H w).
  destruct (fix_links_text p c) as [e|[c' [|k]]] eqn:Et.
  - rewrite (fix_links_text_Exception _ _ Et).
    exists 0, (ms ++ [ErrorProcessing p ValueError]). eexists.
    split; [reflexivity|]. cbn. split; [now rewrite app_assoc|].
    rewrite reported_app. cbn. lia.
  - exists 0, ms. eexists. split; [reflexivity|]. split; [reflexivity | exact Hm].
  - cbn [Nat.ltb Nat.leb]. unfold bind, write_text. cbn [say fs written console].
    destruct (write_file (fs w) p c') as [e|fs'] eqn:E.
    + rewrite (write_file_Exception _ _ _ E).
      exists 0, (ms ++ [ErrorProcessing p e]). eexists.
      split; [reflexivity|]. cbn. split; [now rewrite app_assoc|].
      rewrite reported_app. cbn. lia.
    + exists (S k), (ms ++ [FixedLinksIn (S k) p]). eexists.
      split; [reflexivity|]. cbn. split; [now rewrite app_assoc|].
      rewrite reported_app. cbn. lia.
Qed.

Lemma for_each_md_reported files : forall tf tn w,
  exists tf' delta w',
    for_each_md files tf tn w = (inr (tf', tn + length files), w')
    /\ console w' = console w ++ delta
    /\ tf' = tf + reported delta.
Proof.
  induction files as [|p files IH]; intros tf tn w.
  - exists tf, [], w. cbn. unfold ret. rewrite Nat.add_0_r, app_nil_r. auto.
  - destruct (fix_links_in_file_reported p w) as (n & d1 & w1 & H & Hc & Hn).
    rewrite for_each_md_cons with (1 := H).
    destruct (IH (tf + n) (tn + 1) w1) as (tf' & d2 & w' & H' & Hc' & Hn').
    exists tf', (d1 ++ d2), w'. rewrite H'. cbn [length]. split; [|split].
    + do 2 f_equal. f_equal. lia.
    + rewrite Hc', Hc. now rewrite app_assoc.
    + rewrite reported_app. lia.
Qed.

(** X10. When the content root exists the run ends with exit status 0, and
    its output is the two opening lines, then the lines of the files, then
    the summary: the number of files processed is the number of [.md]
    entries found below the content root, and the number of links in the
    summary is the sum of the counts of the [Fixed n links in file] lines
    printed for the files. *)
Theorem X10_summary_agrees_with_file_lines (w : World) :
  lookup content_root (fs w) <> None ->
  exists delta w',
    run_script w = (0, w')
    /\ console w'
       = console w ++ [Converting; ProcessingIn content_root] ++ delta
         ++ [SummaryHeader;
             Processed (length (md_files content_root (fs w)));
             FixedInternal (reported delta)].
Proof.
  intros H0. destruct (@main_found w H0) as (tf & w0 & Hl & Hm).
  destruct (for_each_md_reported (md_files content_root (fs w)) 0 0
              (say w [Converting; ProcessingIn content_root]))
    as (tf' & delta & w1 & Hl' & Hc & Ht).
  rewrite Hl in Hl'. injection Hl' as <- <-.
  exists delta. eexists. unfold run_script. rewrite Hm. split; [reflexivity|].
  cbn [say console]. rewrite Hc. cbn [say console]. subst tf.
  now rewrite <- !app_assoc.
Qed.

Lemma X10_witness :
  let w := {| fs := [(content_root, Dir);
                     (md_file [] "a.md",
                      File {| data := Text (str "[a](/x) [b](/y)"); readable := true;
                              writable := true |});
                     (md_file ["g"%string] "b.md",
                      File {| data := Undecodable; readable := true; writable := true |});
                     (md_file ["g"%string] "c.md",
                      File {| data := Text (str "[c](/z)"); readable := true;
                              writable := true |})];
              console := []; written := [] |} in
  exists delta w',
    run_script w = (0, w')
    /\ console w'
       = [Converting; ProcessingIn content_root] ++ delta
         ++ [SummaryHeader; Processed 3; FixedInternal (reported delta)].
Proof.
  intros w. refine (@X10_summary_agrees_with_file_lines w _). discriminate.
Defined.

(** ** What a run writes *)

Lemma for_each_md_written files : forall tf tn w,
  exists l, written (snd (for_each_md files tf tn w)) = written w ++ l
            /\ incl l files.
Proof.
  induction files as [|p files IH]; intros tf tn w.
  - cbn. exists []. split; [now rewrite app_nil_r | easy].
  - destruct (fix_links_in_file_returns p w) as (n & w1 & H & Hc).
    rewrite for_each_md_cons with (1 := H).
    destruct (IH (tf + n) (tn + 1) w1) as (l & Hw & Hl).
    destruct Hc as [(_ & _ & Hw1) | (_ & Hw1 & _)].
    + exists l. split; [now rewrite Hw, Hw1|]. now apply incl_tl.
    + exists (p :: l). split; [rewrite Hw, Hw1; now rewrite <- app_assoc|].
      intros x [<- | Hx]; [now left | right; now apply Hl].
Qed.

(** X12. A run opens for writing only markdown files it has found below the
    content root: whatever the world, every file written during the run is
    one of the [.md] entries that [rglob] gave, and with the content root
    missing nothing is written. *)
Theorem X12_run_writes_only_markdown_files (w : World) :
  (exists l, written (snd (run_script w)) = written w ++ l
             /\ incl l (md_files content_root (fs w)))
  /\ (lookup content_root (fs w) = None -> written (snd (run_script w)) = written w).
Proof.
  destruct (lookup content_root (fs w)) as [nd|] eqn:E0.
  - assert (H0 : lookup content_root (fs w) <> None) by congruence.
    destruct (@main_found w H0) as (tf & w0 & Hl & Hm).
    unfold run_script. rewrite Hm. cbn [snd say fs written].
    destruct (for_each_md_written (md_files content_root (fs w)) 0 0
                (say w [Converting; ProcessingIn content_root])) as (l & Hw & Hi).
    rewrite Hl in Hw. cbn [snd say fs written] in Hw.
    split; [|discriminate]. exists l. auto.
  - assert (Hr : run_script w = (1, say w [ContentDirNotFound content_root])).
    { unfold run_script, main, bind at 1, path_exists. rewrite E0. cbn [negb].
      unfold bind at 1. unfold bind at 1. rewrite print_say. reflexivity. }
    rewrite Hr. cbn [snd say fs written]. split; [|reflexivity].
    exists []. split; [now rewrite app_nil_r | easy].
Qed.

Lemma X12_witness :
  let readme := ["website"; "README.md"]%string in
  let w := {| fs := [(content_root, Dir);
                     (readme, File {| data := Text (str "[a](/x)"); readable := true;
                                      writable := true |});
                     (md_file [] "a.md",
                      File {| data := Text (str "[a](/x)"); readable := true;
                              writable := true |})];
              console := []; written := [] |} in
  exists l, written (snd (run_script w)) = l /\ incl l [md_file [] "a.md"].
Proof.
  intros readme w. exact (proj1 (X12_run_writes_only_markdown_files w)).
Defined.
